(** * gsrunner: the service runner of gsdocker

    A shallow embedding of [runner.go]: the flag registrar ([checkName] and
    the [Flag*] declarations), [Run] with its deferred recovery, and the
    registry loader [loadRegistry] with the regular expression it matches
    every line against.  Collaborating packages ([flag], [gsconfig],
    [gslogger], [gorpc], [os]) are modelled by the calls the runner makes
    to them, recorded in a trace. *)

From Stdlib Require Import ZArith Ascii String List Lia.
From Stdlib Require Floats.SpecFloat.
From stdpp Require Import base option list gmap strings.

Local Open Scope string_scope.
Local Open Scope Z_scope.
Local Open Scope list_scope.

(** ** Regular expressions, as package [regexp] matches them

    Only the operators that occur in [registryRegex] are modelled.  The Go
    pattern is compiled without flags, so [^] is the beginning of the text
    and [$] is the end of the text (not the end of a line). *)
Module Regexp.

Inductive Regexp : Type :=
| BeginText                                   (* ^ *)
| EndText                                     (* $ *)
| Literal (c : ascii)                         (* one literal byte *)
| CharClass (ranges : list (ascii * ascii))   (* [a-bc-d...] *)
| Concat (r1 r2 : Regexp)
| Plus (r : Regexp)                           (* r+, greedy *)
| Capture (index : nat) (r : Regexp).         (* ( r ), numbered from 1 *)

(** A capture is the pair of byte offsets that delimit it. *)
Abbreviation caps := (list (option (nat * nat))).

Definition inRange (a : ascii) (r : ascii * ascii) : bool :=
  ((nat_of_ascii (fst r) <=? nat_of_ascii a)%nat
   && (nat_of_ascii a <=? nat_of_ascii (snd r))%nat)%bool.

Definition inClass (ranges : list (ascii * ascii)) (a : ascii) : bool :=
  existsb (inRange a) ranges.

(** Number of capture groups of a pattern. *)
Fixpoint NumSubexp (r : Regexp) : nat :=
  match r with
  | Concat r1 r2 => Nat.max (NumSubexp r1) (NumSubexp r2)
  | Plus r' => NumSubexp r'
  | Capture i r' => Nat.max i (NumSubexp r')
  | _ => 0%nat
  end.

(** Backtracking matcher in continuation-passing style, leftmost-first:
    [matchAt r k i s c] matches [r] at offset [i], where [s] is the text
    from offset [i] on, and hands the offset, the rest of the text and the
    captures to [k]; the first success wins.  A [Plus] iterates at most
    once per remaining byte, and an iteration that consumed nothing is not
    repeated. *)
Fixpoint matchAt (r : Regexp) (k : nat -> string -> caps -> option caps)
         (i : nat) (s : string) (c : caps) {struct r} : option caps :=
  match r with
  | BeginText => if (i =? 0)%nat then k i s c else None
  | EndText => match s with EmptyString => k i s c | String _ _ => None end
  | Literal b =>
      match s with
      | String a s' => if Ascii.eqb a b then k (S i) s' c else None
      | EmptyString => None
      end
  | CharClass ranges =>
      match s with
      | String a s' => if inClass ranges a then k (S i) s' c else None
      | EmptyString => None
      end
  | Concat r1 r2 => matchAt r1 (matchAt r2 k) i s c
  | Capture n r' =>
      matchAt r' (fun j s' c' => k j s' (<[n := Some (i, j)]> c')) i s c
  | Plus r' =>
      (fix iter (fuel : nat) (i : nat) (s : string) (c : caps) {struct fuel}
         : option caps :=
         matchAt r'
           (fun j s' c' =>
              match fuel with
              | O => k j s' c'
              | S fuel' =>
                  if (i <? j)%nat then
                    match iter fuel' j s' c' with
                    | Some res => Some res
                    | None => k j s' c'
                    end
                  else k j s' c'
              end) i s c) (String.length s) i s c
  end.

(** The unanchored search: the leftmost offset at which the pattern
    matches.  Group 0 is the whole match. *)
Fixpoint searchFrom (r : Regexp) (n : nat) (i : nat) (s : string)
  : option caps :=
  match matchAt r (fun j _ c => Some (<[0%nat := Some (i, j)]> c)) i s
                (replicate (S n) None) with
  | Some c => Some c
  | None =>
      match s with
      | EmptyString => None
      | String _ s' => searchFrom r n (S i) s'
      end
  end.

Definition slice (s : string) (c : option (nat * nat)) : string :=
  match c with
  | Some (a, b) => substring a (b - a) s
  | None => ""
  end.

(** [re.FindStringSubmatch(s)]: [None] is Go's nil slice (no match);
    otherwise the text of the match followed by the text of each group. *)
Definition FindStringSubmatch (r : Regexp) (s : string)
  : option (list string) :=
  match searchFrom r (NumSubexp r) 0 s with
  | Some c => Some (map (slice s) c)
  | None => None
  end.

End Regexp.

Import Regexp.

(** [[A-Za-z0-9_]] *)
Definition wordByte : Regexp :=
  CharClass [("A", "Z"); ("a", "z"); ("0", "9"); ("_", "_")]%char.

(** [[0-9]] *)
Definition digitByte : Regexp := CharClass [("0", "9")]%char.

(** [^(?P<name>[A-Za-z0-9_](\.[A-Za-z0-9_])+)=(?P<id>[0-9]+)$] *)
Definition registryRegex : Regexp :=
  Concat BeginText
    (Concat (Capture 1 (Concat wordByte
                          (Plus (Capture 2 (Concat (Literal ".") wordByte)))))
       (Concat (Literal "=")
          (Concat (Capture 3 (Plus digitByte)) EndText))).

Definition LF : ascii := "010"%char.
Definition nl : string := String LF "".


(** ** Package [strconv]: [ParseInt]

    The Go library's integer parser, on mathematical integers with the
    64-bit wrap-around written out.  With [base = 0] the base is taken from
    the prefix and underscores may separate digits. *)
Module strconv.

Inductive Err : Type := ErrSyntax | ErrRange.

Definition byte (c : ascii) : Z := Z.of_nat (nat_of_ascii c).
Definition lower (c : Z) : Z := Z.lor c 32.
Definition maxUint64 : Z := 2 ^ 64 - 1.

Definition isSign (c : ascii) : bool := (byte c =? 43) || (byte c =? 45).
Definition isBaseLetter (c : ascii) : bool :=
  (lower (byte c) =? 98) || (lower (byte c) =? 111) || (lower (byte c) =? 120).

(** The loop of [underscoreOK]; [saw] is the byte remembered from the
    previous position ('^' 94, '0' 48, '_' 95, '!' 33). *)
Fixpoint underscoreLoop (hex : bool) (saw : Z) (s : string) : bool :=
  match s with
  | EmptyString => negb (saw =? 95)
  | String a s' =>
      let c := byte a in
      if ((48 <=? c) && (c <=? 57))
         || (hex && (97 <=? lower c) && (lower c <=? 102))
      then underscoreLoop hex 48 s'
      else if c =? 95 then
             if negb (saw =? 48) then false else underscoreLoop hex 95 s'
      else if saw =? 95 then false
      else underscoreLoop hex 33 s'
  end.

Definition underscoreOK (s : string) : bool :=
  let s := match s with
           | String a s' => if isSign a then s' else s
           | EmptyString => s
           end in
  match s with
  | String a (String b s') =>
      if (byte a =? 48) && isBaseLetter b
      then underscoreLoop (lower (byte b) =? 120) 48 s'
      else underscoreLoop false 94 s
  | _ => underscoreLoop false 94 s
  end.

(** The digit loop of [ParseUint]: the value, or the error together with
    the value returned with it; [underscores] records a skipped '_'. *)
Fixpoint parseDigits (base0 : bool) (base cutoff maxVal : Z)
         (s : string) (n : Z) (underscores : bool)
  : Z * option Err * bool :=
  match s with
  | EmptyString => (n, None, underscores)
  | String a s' =>
      let c := byte a in
      if (c =? 95) && base0 then
        parseDigits base0 base cutoff maxVal s' n true
      else
        let d := if (48 <=? c) && (c <=? 57) then Some (c - 48)
                 else if (97 <=? lower c) && (lower c <=? 122)
                      then Some (lower c - 97 + 10)
                      else None in
        match d with
        | None => (0, Some ErrSyntax, underscores)
        | Some d =>
            if base <=? d then (0, Some ErrSyntax, underscores)
            else if cutoff <=? n then (maxVal, Some ErrRange, underscores)
            else
              let n := n * base in
              let n1 := (n + d) mod 2 ^ 64 in
              if (n1 <? n) || (maxVal <? n1)
              then (maxVal, Some ErrRange, underscores)
              else parseDigits base0 base cutoff maxVal s' n1 underscores
        end
  end.

(** [ParseUint(s, base, bitSize)] for [base] 0 or 2..36 and
    [bitSize] 1..64. *)
Definition ParseUint (s : string) (base bitSize : Z) : Z * option Err :=
  match s with
  | EmptyString => (0, Some ErrSyntax)
  | String a rest =>
      let base0 := base =? 0 in
      let '(base, digits) :=
        if base0 then
          if byte a =? 48 then
            match rest with
            | String b (String c rest') =>
                if lower (byte b) =? 98 then (2, String c rest')
                else if lower (byte b) =? 111 then (8, String c rest')
                else if lower (byte b) =? 120 then (16, String c rest')
                else (8, rest)
            | _ => (8, rest)
            end
          else (10, s)
        else (base, s) in
      let cutoff := maxUint64 / base + 1 in
      let maxVal := 2 ^ bitSize - 1 in
      let '(n, err, underscores) :=
        parseDigits base0 base cutoff maxVal digits 0 false in
      match err with
      | Some e => (n, Some e)
      | None =>
          if underscores && negb (underscoreOK s)
          then (0, Some ErrSyntax)
          else (n, None)
      end
  end.

(** [ParseInt(s, base, bitSize)]: a leading sign, then [ParseUint]; a
    value that does not fit [bitSize] signed bits is a range error. *)
Definition ParseInt (s : string) (base bitSize : Z) : Z * option Err :=
  match s with
  | EmptyString => (0, Some ErrSyntax)
  | String a rest =>
      let '(neg, s') :=
        if byte a =? 43 then (false, rest)
        else if byte a =? 45 then (true, rest)
        else (false, s) in
      match ParseUint s' base bitSize with
      | (_, Some ErrSyntax) => (0, Some ErrSyntax)
      | (un, _) =>
          let cutoff := 2 ^ (bitSize - 1) in
          if negb neg && (cutoff <=? un) then (cutoff - 1, Some ErrRange)
          else if neg && (cutoff <? un) then (- cutoff, Some ErrRange)
          else (if neg then - un else un, None)
      end
  end.

End strconv.

(** ** Values, errors and the calls made to collaborating packages *)

(** A [float64]; a [float32] is the [float64] it widens to, exactly. *)
Definition float64 : Type := SpecFloat.spec_float.

(** The dynamic values handed to [gsconfig.Update] and to the formatting
    verbs of log and error messages. *)
Inductive value : Type :=
| VString (s : string)
| VInt (n : Z)
| VInt64 (n : Z)
| VUint64 (n : Z)
| VFloat64 (f : float64).

(** Go [error] values: the three of the [var] block, [io.EOF], the
    [*strconv.NumError] of [ParseInt], and errors of the operating system. *)
Inductive error : Type :=
| ErrFlag
| ErrConfig
| ErrRegistry
| EOF
| NumError (e : strconv.Err)
| OSError (msg : string).

(** What a [panic] carries: [gserrors.Panicf(err, format, args...)], a fault
    of the Go runtime (index out of range, nil dereference), or a [panic]
    with a plain message (package [flag], the entry point). *)
Inductive fault : Type :=
| Panicf (err : error) (format : string) (args : list value)
| RuntimeError (msg : string)
| PanicString (msg : string).

(** The level of a message: the methods [D], [I], [W] and [E] of the log. *)
Inductive level : Type := DEBUG | INFO | WARN | ERROR.

(** One call to a collaborator.  [SetLogDir] and [NewSink] carry the log
    root from which lines 210-214 derive the directory and the file name
    ([filepath.Abs], [Dir] and [Base]); [Main] is the call of the entry
    point. *)
Inductive event : Type :=
| Log (l : level) (format : string) (args : list value)
| LogFault (l : level) (format : string) (e : fault)
| FlagParse
| LoadJSON (path : string)
| ConfigUpdate (key : string) (v : value)
| SetLogDir (logroot : string)
| NewSink (logroot : string) (maxsize : Z)
| NewFlags (loglevel : string)
| Open (path : string)
| RegistryUpdate (items : gmap string Z)
| Main
| Join.

(** The struct [_Runner]; a [*T] returned by package [flag] is the index of
    the flag's variable in [flagVars] below. *)
Record _Runner : Type := mkRunner {
  flagString : gmap string nat;
  flagInt : gmap string nat;
  flagUint : gmap string nat;
  flagFloat32 : gmap string nat;
  flagFloat64 : gmap string nat;
  flagSecond : gmap string nat;
  flagMilliseconds : gmap string nat;
  fullname : gmap string string
}.

(** The receiver and the package-level state of the collaborators. *)
Record State : Type := mkState {
  runner : _Runner;
  flagVars : list value;          (* the variables behind the flags *)
  flagFormal : gmap string nat;   (* flag.CommandLine: name to variable *)
  config : gmap string value;     (* the store of package gsconfig *)
  trace : list event              (* calls made so far, oldest first *)
}.

(** ** Computations: state passing with panics *)

Inductive result (A : Type) : Type :=
| Ok (a : A)
| Panic (f : fault).
Arguments Ok {A} a.
Arguments Panic {A} f.

Definition M (A : Type) : Type := State -> result A * State.

Definition ret {A} (a : A) : M A := fun st => (Ok a, st).

Definition bind {A B} (m : M A) (k : A -> M B) : M B :=
  fun st =>
    match m st with
    | (Ok a, st') => k a st'
    | (Panic f, st') => (Panic f, st')
    end.

Definition panic {A} (f : fault) : M A := fun st => (Panic f, st).

#[global] Instance M_ret : MRet M := @ret.
#[global] Instance M_bind : MBind M := fun A B k m => bind m k.

Definition get : M State := fun st => (Ok st, st).

Definition emit (e : event) : M unit :=
  fun st => (Ok tt, mkState (runner st) (flagVars st) (flagFormal st)
                            (config st) (trace st ++ [e])).

(** ** Package [bufio]: [ReadString] *)

(** An [io.Reader]: the bytes it delivers and the error that ends them
    ([EOF] at the end of a file that reads without fault). *)
Record Reader : Type := mkReader { buf : string; final : error }.

(** The line up to and including the first [delim], and the rest. *)
Fixpoint cut (delim : ascii) (s : string) : option (string * string) :=
  match s with
  | EmptyString => None
  | String a s' =>
      if Ascii.eqb a delim then Some (String a "", s')
      else match cut delim s' with
           | Some (line, rest) => Some (String a line, rest)
           | None => None
           end
  end.

(** [reader.ReadString(delim)]: the error is non-nil exactly when the data
    returned does not end in [delim]. *)
Definition ReadString (reader : Reader) (delim : ascii)
  : string * option error * Reader :=
  match cut delim (buf reader) with
  | Some (line, rest) => (line, None, mkReader rest (final reader))
  | None => (buf reader, Some (final reader), mkReader "" (final reader))
  end.

(** ** The registry loader *)

Definition TAB : ascii := "009"%char.

(** The two message formats of the loader, ["...:\n\tinvalid format\n\t%s(%d)"]
    and ["...:\n\tid out of range\n\t%s(%d)"], with their escapes as bytes. *)
Definition fmtLine (what : string) : string :=
  "load registry file error:" ++ String LF (String TAB what)
    ++ String LF (String TAB "%s(%d)").
Definition invalidFormat : string := fmtLine "invalid format".
Definition idOutOfRange : string := fmtLine "id out of range".

Definition MaxUint16 : Z := 65535.

(** The conversion [uint16(val)] of an [int64]. *)
Definition uint16 (val : Z) : Z := val mod 2 ^ 16.

(** [tokens[i]]; out of range is a fault of the runtime. *)
Definition tokenAt (tokens : list string) (i : nat) : M string :=
  match tokens !! i with
  | Some t => ret t
  | None => panic (RuntimeError "index out of range")
  end.

Definition error_eqb_EOF (e : error) : bool :=
  match e with EOF => true | _ => false end.

(** The [for] loop of [loadRegistry], one iteration per unit of [fuel], and
    the call of [gorpc.RegistryUpdate] that follows its [break].  [re] is
    the package variable [registryRegex]. *)
Fixpoint loadLoop (re : Regexp) (path : string) (fuel : nat)
         (reader : Reader) (lines : Z) (items : gmap string Z) : M unit :=
  match fuel with
  | O => panic (RuntimeError "loadLoop: out of fuel")
  | S fuel' =>
      let '(line, err, reader) := ReadString reader LF in
      match err with
      | Some err =>
          if error_eqb_EOF err then emit (RegistryUpdate items)
          else panic (Panicf err "read registry file error :%s"
                             [VString path])
      | None =>
          match FindStringSubmatch re line with
          | None =>
              panic (Panicf ErrRegistry invalidFormat
                             [VString path; VInt lines])
          | Some tokens =>
              tok1 ← tokenAt tokens 1;
              match strconv.ParseInt tok1 0 32 with
              | (_, Some err) =>
                  panic (Panicf (NumError err) invalidFormat
                                 [VString path; VInt lines])
              | (val, None) =>
                  if MaxUint16 <? val then
                    panic (Panicf ErrRegistry idOutOfRange
                                 [VString path; VInt lines])
                  else
                    tok0 ← tokenAt tokens 0;
                    loadLoop re path fuel' reader (lines + 1)
                             (<[tok0 := uint16 val]> items)
              end
          end
      end
  end.

(** Every iteration but the last consumes at least one byte, so one unit of
    fuel per byte and one for the last iteration is enough
    (see [loadLoop_fuel]). *)
Definition loadRegistryWith (re : Regexp) (file : Reader) (path : string)
  : M unit :=
  loadLoop re path (S (String.length (buf file))) file 0 ∅.

Definition loadRegistry (file : Reader) (path : string) : M unit :=
  loadRegistryWith registryRegex file path.

(** ** Package [flag] *)

Definition setFlags (vars : list value) (formal : gmap string nat) : M unit :=
  fun st => (Ok tt, mkState (runner st) vars formal (config st) (trace st)).

(** [flag.String], [flag.Int64], [flag.Uint64], [flag.Float64]: a new
    variable holding the default, registered under [name]; the pointer to it
    is returned.  Defining a name twice panics. *)
Definition flag_define (name : string) (defaultVal : value)
           (usage : string) : M nat :=
  st ← get;
  match flagFormal st !! name with
  | Some _ => panic (PanicString ("flag redefined: " ++ name))
  | None =>
      let p := length (flagVars st) in
      setFlags (flagVars st ++ [defaultVal]) (<[name := p]> (flagFormal st));;
      ret p
  end.

Definition sameKind (v w : value) : bool :=
  match v, w with
  | VString _, VString _ | VInt _, VInt _ | VInt64 _, VInt64 _
  | VUint64 _, VUint64 _ | VFloat64 _, VFloat64 _ => true
  | _, _ => false
  end.

(** One assignment [-name=v] of the command line. *)
Definition assign (formal : gmap string nat) (vars : list value)
           (a : string * value) : list value :=
  match formal !! a.1 with
  | Some p =>
      match vars !! p with
      | Some old => if sameKind old a.2 then <[p := a.2]> vars else vars
      | None => vars
      end
  | None => vars
  end.

(** [flag.Parse()], where it returns: every assignment of the command line
    is stored in the variable of its flag.  (On an undefined flag or a value
    of the wrong type the package ends the process itself; such command
    lines are outside this model.) *)
Definition flag_Parse (cmdline : list (string * value)) : M unit :=
  st ← get;
  setFlags (foldl (assign (flagFormal st)) (flagVars st) cmdline)
           (flagFormal st);;
  emit FlagParse.

(** [*p] for a pointer obtained from a map of the runner: a missing key
    yields the nil pointer, whose dereference is a fault. *)
Definition deref (p : option nat) : M value :=
  st ← get;
  match p ≫= (fun i => flagVars st !! i) with
  | Some v => ret v
  | None => panic (RuntimeError "nil pointer dereference")
  end.

(** ** Package [gsconfig] *)

Definition setConfig (c : gmap string value) : M unit :=
  fun st => (Ok tt, mkState (runner st) (flagVars st) (flagFormal st) c
                            (trace st)).

(** [gsconfig.Update(key, val)] *)
Definition gsconfig_Update (key : string) (val : value) : M unit :=
  st ← get;
  setConfig (<[key := val]> (config st));;
  emit (ConfigUpdate key val).

(** [gsconfig.LoadJSON(path)]: [jsonFiles path] is the content of the file,
    [None] when it cannot be loaded; the settings of the file are merged
    into the store.  The boolean is [err != nil]. *)
Definition gsconfig_LoadJSON
           (jsonFiles : string -> option (gmap string value))
           (path : string) : M bool :=
  emit (LoadJSON path);;
  match jsonFiles path with
  | Some settings =>
      st ← get;
      setConfig (settings ∪ config st);;
      ret false
  | None => ret true
  end.

(** [gsconfig.String(key, defaultVal)] *)
Definition gsconfig_String (key defaultVal : string) : M string :=
  st ← get;
  match config st !! key with
  | Some (VString s) => ret s
  | _ => ret defaultVal
  end.

(** [gsconfig.Int64(key, defaultVal)] *)
Definition gsconfig_Int64 (key : string) (defaultVal : Z) : M Z :=
  st ← get;
  match config st !! key with
  | Some (VInt64 n) => ret n
  | _ => ret defaultVal
  end.

(** ** Package [filepath]: [Ext] *)

(** The loop of [Ext], from index [n - 1] down to 0; the path separator
    is ['/']. *)
Fixpoint extLoop (path : string) (n : nat) : string :=
  match n with
  | O => ""
  | S i =>
      match String.get i path with
      | Some c =>
          if Ascii.eqb c "/" then ""
          else if Ascii.eqb c "." then
                 substring i (String.length path - i) path
          else extLoop path i
      | None => ""
      end
  end.

Definition Ext (path : string) : string :=
  extLoop path (String.length path).

(** ** The flag registrar *)

Definition setRunner (r : _Runner) : M unit :=
  fun st => (Ok tt, mkState r (flagVars st) (flagFormal st) (config st)
                            (trace st)).

(** A [for ... range] loop over the entries of a map. *)
Fixpoint forM_ {A} (l : list A) (body : A -> M unit) : M unit :=
  match l with
  | [] => ret tt
  | x :: l' => body x;; forM_ l' body
  end.

Definition setFullname (r : _Runner) (m : gmap string string) : _Runner :=
  mkRunner (flagString r) (flagInt r) (flagUint r) (flagFloat32 r)
           (flagFloat64 r) (flagSecond r) (flagMilliseconds r) m.

Definition checkName (name fullname' : string) : M unit :=
  st ← get;
  (match fullname (runner st) !! name with
   | Some _ => panic (Panicf ErrFlag "duplicate flag name :%s" [VString name])
   | None => ret tt
   end);;
  forM_ (map_to_list (fullname (runner st)))
        (fun kv => if String.eqb kv.2 fullname'
                   then panic (Panicf ErrFlag "duplicate flag fullname :%s"
                                      [VString fullname'])
                   else ret tt);;
  st ← get;
  setRunner (setFullname (runner st)
                         (<[name := fullname']> (fullname (runner st)))).

(** The seven maps of the runner, by kind of flag. *)
Inductive kind : Type :=
| KString | KInt | KUint | KFloat32 | KFloat64 | KSecond | KMilliseconds.

Definition flagsOf (k : kind) (r : _Runner) : gmap string nat :=
  match k with
  | KString => flagString r
  | KInt => flagInt r
  | KUint => flagUint r
  | KFloat32 => flagFloat32 r
  | KFloat64 => flagFloat64 r
  | KSecond => flagSecond r
  | KMilliseconds => flagMilliseconds r
  end.

(** [runner.flagX[name] = p] *)
Definition setFlag (k : kind) (name : string) (p : nat) (r : _Runner)
  : _Runner :=
  match k with
  | KString =>
      mkRunner (<[name := p]> (flagString r)) (flagInt r) (flagUint r)
        (flagFloat32 r) (flagFloat64 r) (flagSecond r) (flagMilliseconds r)
        (fullname r)
  | KInt =>
      mkRunner (flagString r) (<[name := p]> (flagInt r)) (flagUint r)
        (flagFloat32 r) (flagFloat64 r) (flagSecond r) (flagMilliseconds r)
        (fullname r)
  | KUint =>
      mkRunner (flagString r) (flagInt r) (<[name := p]> (flagUint r))
        (flagFloat32 r) (flagFloat64 r) (flagSecond r) (flagMilliseconds r)
        (fullname r)
  | KFloat32 =>
      mkRunner (flagString r) (flagInt r) (flagUint r)
        (<[name := p]> (flagFloat32 r)) (flagFloat64 r) (flagSecond r)
        (flagMilliseconds r) (fullname r)
  | KFloat64 =>
      mkRunner (flagString r) (flagInt r) (flagUint r) (flagFloat32 r)
        (<[name := p]> (flagFloat64 r)) (flagSecond r) (flagMilliseconds r)
        (fullname r)
  | KSecond =>
      mkRunner (flagString r) (flagInt r) (flagUint r) (flagFloat32 r)
        (flagFloat64 r) (<[name := p]> (flagSecond r)) (flagMilliseconds r)
        (fullname r)
  | KMilliseconds =>
      mkRunner (flagString r) (flagInt r) (flagUint r) (flagFloat32 r)
        (flagFloat64 r) (flagSecond r) (<[name := p]> (flagMilliseconds r))
        (fullname r)
  end.

(** The common shape of the seven declarations: [checkName], then the
    definition of the flag, whose pointer is stored under [name]. *)
Definition declare (k : kind) (name fullname' : string) (defaultVal : value)
           (description : string) : M unit :=
  checkName name fullname';;
  p ← flag_define name defaultVal description;
  st ← get;
  setRunner (setFlag k name p (runner st)).

Definition FlagString (name fullname' defaultVal description : string)
  : M unit :=
  declare KString name fullname' (VString defaultVal) description.

Definition FlagInt (name fullname' : string) (defaultVal : Z)
           (description : string) : M unit :=
  declare KInt name fullname' (VInt64 defaultVal) description.

Definition FlagUint (name fullname' : string) (defaultVal : Z)
           (description : string) : M unit :=
  declare KUint name fullname' (VUint64 defaultVal) description.

Definition FlagFloat32 (name fullname' : string) (defaultVal : float64)
           (description : string) : M unit :=
  declare KFloat32 name fullname' (VFloat64 defaultVal) description.

Definition FlagFloat64 (name fullname' : string) (defaultVal : float64)
           (description : string) : M unit :=
  declare KFloat64 name fullname' (VFloat64 defaultVal) description.

Definition Seconds (name fullname' : string) (defaultVal : Z)
           (description : string) : M unit :=
  declare KSecond name fullname' (VUint64 defaultVal) description.

Definition Milliseconds (name fullname' : string) (defaultVal : Z)
           (description : string) : M unit :=
  declare KMilliseconds name fullname' (VUint64 defaultVal) description.

Definition emptyRunner : _Runner := mkRunner ∅ ∅ ∅ ∅ ∅ ∅ ∅ ∅.

(** [New(name)]: a runner with empty maps and the five flags of its own
    ([name] only names its log). *)
Definition New (name : string) : M unit :=
  setRunner emptyRunner;;
  FlagString "log" "gsrunner.log" "" "the gsrunner log root path";;
  FlagString "level" "gsrunner.log.level" "" "the gsrunner log level";;
  FlagString "pprof" "gsrunner.pprof" "" "set gsrunner pprof listen address";;
  FlagString "config" "gsrunner.config" "" "set gsrunner config file";;
  FlagString "registry" "gsrunner.registry" ""
             "set the rpc services registry file".

(** The state of a fresh process. *)
Definition st0 : State := mkState emptyRunner [] ∅ ∅ [].

(** ** [Run] *)

(** What the process finds outside: its command line, the JSON files
    [gsconfig.LoadJSON] can load, and the files [os.Open] can open (with the
    error it returns for the others). *)
Record Env : Type := mkEnv {
  cmdline : list (string * value);
  jsonFiles : string -> option (gmap string value);
  files : string -> error + Reader
}.

(** The entry point [main(runner)] is opaque: it returns ([None]) or
    panics. *)
Definition entry : Type := option fault.

(** [gsconfig.Update(runner.fullname[k], *v)] for the entry [(k, v)] of a
    map of flags; a key missing from [runner.fullname] reads as the empty
    string. *)
Definition updateFlag (kv : string * nat) : M unit :=
  st ← get;
  v ← deref (Some kv.2);
  gsconfig_Update (default "" (fullname (runner st) !! kv.1)) v.

(** [for k, v := range flags { gsconfig.Update(runner.fullname[k], *v) }].
    Go leaves the order of the iteration open; the order of [map_to_list]
    stands for it, and what is proved of the store depends on the entries
    only, not on their order ([foldl_store1_lookup]). *)
Definition updateFlags (k : kind) : M unit :=
  st ← get;
  forM_ (map_to_list (flagsOf k (runner st))) updateFlag.

Definition asString (v : value) : M string :=
  match v with
  | VString s => ret s
  | _ => panic (RuntimeError "not a *string")
  end.

(** Lines 162-177: the flags are parsed and the configuration file named by
    [-config] is loaded. *)
Definition loadConfig (env : Env) : M unit :=
  flag_Parse (cmdline env);;
  st ← get;
  configpath ← deref (flagString (runner st) !! "config") ≫= asString;
  emit (Log DEBUG "config file path :%s" [VString configpath]);;
  if negb (String.eqb configpath "") then
    if String.eqb (Ext configpath) ".json" then
      err ← gsconfig_LoadJSON (jsonFiles env) configpath;
      if err : bool then
        panic (Panicf ErrConfig "load config file error :%s"
                      [VString configpath])
      else ret tt
    else emit (Log WARN "can't load config file :%s" [VString configpath])
  else ret tt.

(** Lines 179-199: the seven loops that write the flags into the store. *)
Definition mergeFlags : M unit :=
  updateFlags KString;;
  updateFlags KInt;;
  updateFlags KUint;;
  updateFlags KFloat32;;
  updateFlags KFloat64;;
  updateFlags KSecond;;
  updateFlags KMilliseconds.

(** Lines 201-238: logging is set up and the registry is loaded. *)
Definition prepare (env : Env) : M unit :=
  logroot ← gsconfig_String "gsrunner.log" "";
  emit (Log DEBUG "log root path :%s" [VString logroot]);;
  loglevel ← gsconfig_String "gsrunner.log.level" "";
  emit (Log DEBUG "log level :%s" [VString loglevel]);;
  registryFile ← gsconfig_String "gsrunner.registry" "";
  emit (Log DEBUG "registry file:%s" [VString registryFile]);;
  (if negb (String.eqb logroot "") then
     emit (SetLogDir logroot);;
     maxsize ← gsconfig_Int64 "gschat.mailhub.log.maxsize" 0;
     emit (NewSink logroot maxsize)
   else ret tt);;
  (if negb (String.eqb loglevel "") then emit (NewFlags loglevel)
   else ret tt);;
  if negb (String.eqb registryFile "") then
    emit (Log INFO "load gsrpc services registry file :%s"
              [VString registryFile]);;
    emit (Open registryFile);;
    match files env registryFile with
    | inl err =>
        panic (Panicf err "open registry file error :%s"
                      [VString registryFile])
    | inr file =>
        loadRegistry file registryFile;;
        emit (Log INFO "load gsrpc services registry file :%s -- success"
                  [VString registryFile])
    end
  else ret tt.

(** Lines 201-243: after [prepare], the entry point is called. *)
Definition startup (env : Env) (main : entry) : M unit :=
  prepare env;;
  emit (Log INFO "service started." []);;
  emit Main;;
  match main with
  | Some e => panic e
  | None => ret tt
  end.

Definition body (env : Env) (main : entry) : M unit :=
  loadConfig env;;
  mergeFlags;;
  startup env main.

(** ["catch unknown exception\n\t%s"], with its escapes as bytes. *)
Definition catchFormat : string :=
  "catch unknown exception" +:+ String LF (String TAB "%s").

(** The deferred function: [recover()] ends a panic, which is logged (the
    value of a panic is not nil); then the last message and
    [gslogger.Join()]. *)
Definition deferred (r : result unit) : M unit :=
  (match r with
   | Panic e =>
       emit (LogFault ERROR catchFormat e)
   | Ok _ => ret tt
   end);;
  emit (Log INFO "service stopped." []);;
  emit Join.

Definition Run (env : Env) (main : entry) : M unit :=
  fun st =>
    let '(r, st') := body env main st in
    deferred r st'.

(** * Vocabulary of the statements *)

Fixpoint lastByte (s : string) : option ascii :=
  match s with
  | EmptyString => None
  | String a EmptyString => Some a
  | String _ s' => lastByte s'
  end.

(** The declarative reading of a pattern. *)
Module RegexpSpec.

(** The indices of the groups of a pattern. *)
Fixpoint groups (r : Regexp) : list nat :=
  match r with
  | Concat r1 r2 => groups r1 ++ groups r2
  | Plus r' => groups r'
  | Capture n r' => n :: groups r'
  | _ => []
  end.

(** [Matches r i s c j s' c']: [r] matches from offset [i], where the text
    that remains is [s] and the captures are [c], up to offset [j], where
    [s'] remains and the captures are [c']. *)
Inductive Matches
  : Regexp -> nat -> string -> caps -> nat -> string -> caps -> Prop :=
| MBegin s c : Matches BeginText 0 s c 0 s c
| MEnd i c : Matches EndText i "" c i "" c
| MLiteral b i s c : Matches (Literal b) i (String b s) c (S i) s c
| MClass ranges a i s c :
    inClass ranges a = true ->
    Matches (CharClass ranges) i (String a s) c (S i) s c
| MConcat r1 r2 i s c j s' c' k s'' c'' :
    Matches r1 i s c j s' c' -> Matches r2 j s' c' k s'' c'' ->
    Matches (Concat r1 r2) i s c k s'' c''
| MCapture n r i s c j s' c' :
    Matches r i s c j s' c' ->
    Matches (Capture n r) i s c j s' (<[n := Some (i, j)]> c')
| MPlusOne r i s c j s' c' :
    Matches r i s c j s' c' -> Matches (Plus r) i s c j s' c'
| MPlusMore r i s c j s' c' k s'' c'' :
    Matches r i s c j s' c' -> Matches (Plus r) j s' c' k s'' c'' ->
    Matches (Plus r) i s c k s'' c''.

End RegexpSpec.

(** [st] after the calls [evs]. *)
Definition after (st : State) (evs : list event) : State :=
  mkState (runner st) (flagVars st) (flagFormal st) (config st)
          (trace st ++ evs).

(** A line as [ReadString] returns it without error: its only newline is its
    last byte. *)
Definition isLine (l : string) : Prop := cut LF l = Some (l, "").

Definition joinLines (ls : list string) : string := foldr append "" ls.

(** The outcome of the checks an iteration makes on its line
    (lines 266-282). *)
Inductive lineCheck : Type :=
| Mismatch                       (* tokens == nil *)
| NoToken                        (* tokens[1] or tokens[0] out of range *)
| ParseError (e : strconv.Err)   (* err != nil *)
| OutOfRange                     (* val > math.MaxUint16 *)
| Entry (key : string) (id : Z).

Definition checkLine (re : Regexp) (line : string) : lineCheck :=
  match FindStringSubmatch re line with
  | None => Mismatch
  | Some tokens =>
      match tokens !! 1%nat with
      | None => NoToken
      | Some tok1 =>
          match strconv.ParseInt tok1 0 32 with
          | (_, Some e) => ParseError e
          | (val, None) =>
              if MaxUint16 <? val then OutOfRange
              else match tokens !! 0%nat with
                   | None => NoToken
                   | Some tok0 => Entry tok0 (uint16 val)
                   end
          end
      end
  end.

(** The panic of a failed check, at line counter [lines]. *)
Definition lineFault (path : string) (lines : Z) (c : lineCheck) : fault :=
  match c with
  | Mismatch =>
      Panicf ErrRegistry invalidFormat [VString path; VInt lines]
  | ParseError e =>
      Panicf (NumError e) invalidFormat [VString path; VInt lines]
  | OutOfRange =>
      Panicf ErrRegistry idOutOfRange [VString path; VInt lines]
  | NoToken | Entry _ _ => RuntimeError "index out of range"
  end.

Definition accepted (re : Regexp) (l : string) : Prop :=
  ∃ key id, checkLine re l = Entry key id.

Definition rejected (re : Regexp) (l : string) : Prop :=
  ∀ key id, checkLine re l ≠ Entry key id.

(** The map after the entries of the lines [ls], in order. *)
Definition addEntries (re : Regexp) (items : gmap string Z)
           (ls : list string) : gmap string Z :=
  foldl (fun m l => match checkLine re l with
                    | Entry key id => <[key := id]> m
                    | _ => m
                    end) items ls.

(** A pattern that does accept lines, [^([0-9]+)\n$], to exercise the loop
    of the loader on inputs it consumes. *)
Definition digitsLine : Regexp :=
  Concat BeginText
    (Concat (Capture 1 (Plus digitByte)) (Concat (Literal LF) EndText)).

(** The two panics of [checkName]. *)
Definition duplicateName (name : string) : fault :=
  Panicf ErrFlag "duplicate flag name :%s" [VString name].
Definition duplicateFullname (fullname' : string) : fault :=
  Panicf ErrFlag "duplicate flag fullname :%s" [VString fullname'].

(** One declaration of an option, and a sequence of them on the runner. *)
Record declaration : Type := mkDecl {
  dKind : kind;
  dName : string;
  dFull : string;
  dDefault : value;
  dDescription : string
}.

Definition declareOne (d : declaration) : M unit :=
  declare (dKind d) (dName d) (dFull d) (dDefault d) (dDescription d).

Definition declareAll (ds : list declaration) : M unit := forM_ ds declareOne.

(** The five declarations of [New]. *)
Definition builtin : list declaration :=
  [ mkDecl KString "log" "gsrunner.log" (VString "")
           "the gsrunner log root path";
    mkDecl KString "level" "gsrunner.log.level" (VString "")
           "the gsrunner log level";
    mkDecl KString "pprof" "gsrunner.pprof" (VString "")
           "set gsrunner pprof listen address";
    mkDecl KString "config" "gsrunner.config" (VString "")
           "set gsrunner config file";
    mkDecl KString "registry" "gsrunner.registry" (VString "")
           "set the rpc services registry file" ].

(** The runner records exactly the names of the declarations [ds]. *)
Definition records (r : _Runner) (ds : list declaration) : Prop :=
  ∀ name full,
    fullname r !! name = Some full
    ↔ ∃ d, d ∈ ds ∧ dName d = name ∧ dFull d = full.

(** The state after a declaration that passes [checkName] and package
    [flag]. *)
Definition declared (k : kind) (name full : string) (v : value) (st : State)
  : State :=
  mkState (setFlag k name (length (flagVars st))
                   (setFullname (runner st)
                                (<[name := full]> (fullname (runner st)))))
          (flagVars st ++ [v])
          (<[name := length (flagVars st)]> (flagFormal st))
          (config st) (trace st).

#[global] Instance kind_eq_dec : EqDecision kind.
Proof. solve_decision. Defined.

(** The runner is consistent: every flag of the seven maps has a full name
    and a variable, is in one map only, and no full name occurs twice. *)
Definition consistent (st : State) : Prop :=
  (∀ k n p, flagsOf k (runner st) !! n = Some p →
            is_Some (fullname (runner st) !! n)
            ∧ is_Some (flagVars st !! p))
  ∧ (∀ k1 k2 n p1 p2, flagsOf k1 (runner st) !! n = Some p1 →
                      flagsOf k2 (runner st) !! n = Some p2 → k1 = k2)
  ∧ (∀ n1 n2 f, fullname (runner st) !! n1 = Some f →
                fullname (runner st) !! n2 = Some f → n1 = n2).

(** The flags in the order in which the seven loops of [Run] visit them. *)
Definition kinds : list kind :=
  [KString; KInt; KUint; KFloat32; KFloat64; KSecond; KMilliseconds].

Definition allFlags (r : _Runner) : list (string * nat) :=
  concat ((fun k => map_to_list (flagsOf k r)) <$> kinds).

(** The key under which a flag is stored, [runner.fullname[k]]. *)
Definition keyOf (r : _Runner) (n : string) : string :=
  default "" (fullname r !! n).

(** The effect of one [gsconfig.Update(runner.fullname[k], *v)] on the
    store. *)
Definition store1 (r : _Runner) (vars : list value)
           (c : gmap string value) (kv : string * nat) : gmap string value :=
  match vars !! kv.2 with
  | Some v => <[keyOf r kv.1 := v]> c
  | None => c
  end.

Definition isConfigUpdate (e : event) : Prop :=
  match e with ConfigUpdate _ _ => True | _ => False end.

(** The values of the flag variables after [flag.Parse()]. *)
Definition parsed (env : Env) (st : State) : list value :=
  foldl (assign (flagFormal st)) (flagVars st) (cmdline env).

(** The state after [flag.Parse()]. *)
Definition parsedState (env : Env) (st : State) : State :=
  mkState (runner st) (parsed env st) (flagFormal st) (config st)
          (trace st ++ [FlagParse]).

(** The value of the flag [-config] after parsing, [None] when the runner
    has no such flag. *)
Definition configFlag (env : Env) (st : State) : option value :=
  flagString (runner st) !! "config" ≫= (fun p => parsed env st !! p).

Definition withConfig (st : State) (c : gmap string value) : State :=
  mkState (runner st) (flagVars st) (flagFormal st) c (trace st).

(** Every call a computation makes satisfies [P]. *)
Definition emits {A} (P : event → Prop) (m : M A) : Prop :=
  ∀ st r st', m st = (r, st') →
              ∃ evs, trace st' = trace st ++ evs ∧ Forall P evs.

Definition isJoin (e : event) : bool :=
  match e with Join => true | _ => false end.

Definition isMain (e : event) : bool :=
  match e with Main => true | _ => false end.

Definition isLoadJSON (e : event) : bool :=
  match e with LoadJSON _ => true | _ => false end.

(** The calls of the deferred function, after the outcome [r] of the body. *)
Definition lastCalls (r : result unit) : list event :=
  match r with
  | Panic e => [LogFault ERROR catchFormat e]
  | Ok _ => []
  end ++ [Log INFO "service stopped." []; Join].

(** The errors of the startup, each with the panic it raises: a named JSON
    configuration file that cannot be loaded; and, once the configuration
    and merge steps have returned in [st2] with a registry path in the
    store, a registry file that cannot be opened, or one on which the
    loader panics. *)
Inductive startupError (env : Env) (st : State) : fault → Prop :=
| ConfigError (configpath : string) :
    configFlag env st = Some (VString configpath) →
    configpath ≠ "" → Ext configpath = ".json" →
    jsonFiles env configpath = None →
    startupError env st
      (Panicf ErrConfig "load config file error :%s" [VString configpath])
| OpenError (st2 : State) (registryFile : string) (err : error) :
    (loadConfig env;; mergeFlags) st = (Ok tt, st2) →
    config st2 !! "gsrunner.registry" = Some (VString registryFile) →
    registryFile ≠ "" →
    files env registryFile = inl err →
    startupError env st
      (Panicf err "open registry file error :%s" [VString registryFile])
| LoadError (st2 : State) (registryFile : string) (file : Reader) (f : fault) :
    (loadConfig env;; mergeFlags) st = (Ok tt, st2) →
    config st2 !! "gsrunner.registry" = Some (VString registryFile) →
    registryFile ≠ "" →
    files env registryFile = inr file →
    loadRegistry file registryFile st2 = (Panic f, st2) →
    startupError env st f.

(** A process whose JSON configuration file cannot be loaded and whose
    registry file cannot be opened. *)
Definition envUnreadable (cmd : list (string * value)) : Env :=
  mkEnv cmd (fun _ => None) (fun _ => inl (OSError "no such file")).

(** * Vocabulary of the store and of the startup *)

(** The runner holds the flag [n] of kind [k]: its map of that kind and
    package [flag] point to the same variable, whose value is [v], and its
    full name is [full]. *)
Definition holdsFlag (st : State) (k : kind) (n full : string) (v : value)
  : Prop :=
  ∃ p, flagsOf k (runner st) !! n = Some p
       ∧ flagFormal st !! n = Some p
       ∧ flagVars st !! p = Some v
       ∧ fullname (runner st) !! n = Some full.

(** Package [flag] gives every flag a variable of its own. *)
Definition flagPackageOK (st : State) : Prop :=
  (∀ n p, flagFormal st !! n = Some p → (p < length (flagVars st))%nat)
  ∧ (∀ n1 n2 p, flagFormal st !! n1 = Some p → flagFormal st !! n2 = Some p →
                n1 = n2).

(** The value of the flag [n] after the command line: its default [v0],
    replaced in turn by every value of its kind that the command line
    assigns to [n]. *)
Definition commandLine (n : string) (v0 : value)
           (cmdline : list (string * value)) : value :=
  foldl (fun v a => if String.eqb a.1 n && sameKind v a.2 then a.2 else v)
        v0 cmdline.

(** What [gsconfig.String(key, "")] and [gsconfig.Int64(key, 0)] read in the
    store [c]. *)
Definition storeString (c : gmap string value) (key : string) : string :=
  match c !! key with
  | Some (VString s) => s
  | _ => ""
  end.

Definition storeInt64 (c : gmap string value) (key : string) : Z :=
  match c !! key with
  | Some (VInt64 n) => n
  | _ => 0
  end.

(** The calls of lines 201-223 on the store [c]: the three debug messages
    and the set-up of the log. *)
Definition logCalls (c : gmap string value) : list event :=
  let logroot := storeString c "gsrunner.log" in
  let loglevel := storeString c "gsrunner.log.level" in
  [ Log DEBUG "log root path :%s" [VString logroot];
    Log DEBUG "log level :%s" [VString loglevel];
    Log DEBUG "registry file:%s"
        [VString (storeString c "gsrunner.registry")] ]
  ++ (if String.eqb logroot "" then []
      else [ SetLogDir logroot;
             NewSink logroot (storeInt64 c "gschat.mailhub.log.maxsize") ])
  ++ (if String.eqb loglevel "" then [] else [NewFlags loglevel]).

(** The calls of lines 225-238 for the registry file [registryFile]. *)
Definition registryCalls (env : Env) (registryFile : string)
  : list event * result unit :=
  if String.eqb registryFile "" then ([], Ok tt)
  else
    let opening :=
      [ Log INFO "load gsrpc services registry file :%s"
            [VString registryFile];
        Open registryFile ] in
    match files env registryFile with
    | inl err =>
        (opening,
         Panic (Panicf err "open registry file error :%s"
                       [VString registryFile]))
    | inr file =>
        match cut LF (buf file) with
        | Some _ =>
            (opening,
             Panic (Panicf ErrRegistry invalidFormat
                           [VString registryFile; VInt 0]))
        | None =>
            if error_eqb_EOF (final file)
            then (opening
                  ++ [ RegistryUpdate ∅;
                       Log INFO
                         "load gsrpc services registry file :%s -- success"
                         [VString registryFile] ],
                  Ok tt)
            else (opening,
                  Panic (Panicf (final file) "read registry file error :%s"
                                [VString registryFile]))
        end
    end.

(** * Vocabulary of the further properties *)

Fixpoint hasByte (c : ascii) (s : string) : bool :=
  match s with
  | EmptyString => false
  | String a s' => Ascii.eqb a c || hasByte c s'
  end.

(** The names that every version of package [flag] takes: later versions
    panic at the definition of a name that begins with ['-'] or contains
    ['=']. *)
Definition flagName (s : string) : bool :=
  negb (String.prefix "-" s) && negb (hasByte "=" s).

(** The calls that set up the log and open the registry file take their
    argument from the command line [cmd]. *)
Definition fromCommandLine (cmd : list (string * value)) (e : event) : Prop :=
  match e with
  | SetLogDir logroot | NewSink logroot _ => ("log", VString logroot) ∈ cmd
  | NewFlags loglevel => ("level", VString loglevel) ∈ cmd
  | Open path => ("registry", VString path) ∈ cmd
  | _ => True
  end.

(** The startup of [Run]: everything before the message
    ["service started."]. *)
Definition beforeStart (env : Env) : M unit :=
  loadConfig env;; mergeFlags;; prepare env.

(** How the entry point ends. *)
Definition entryResult (main : entry) : result unit :=
  match main with
  | Some e => Panic e
  | None => Ok tt
  end.

(** The segments of a name that follow its first byte, each a dot and one
    byte. *)
Fixpoint segments (bs : list ascii) : string :=
  match bs with
  | [] => ""
  | b :: bs' => String "." (String b (segments bs'))
  end.

Definition isWordByte (a : ascii) : bool :=
  inClass [("A", "Z"); ("a", "z"); ("0", "9"); ("_", "_")]%char a.

Definition isDigitByte (a : ascii) : bool := inClass [("0", "9")]%char a.



(** * Properties *)

(** ** Strings *)

Lemma app_cons_s (a : ascii) (s t : string) :
  (String a s ++ t)%string = String a (s ++ t).
Proof. reflexivity. Qed.

Lemma app_nil_l_s (t : string) : ("" ++ t)%string = t.
Proof. reflexivity. Qed.

Lemma app_assoc_s (a b c : string) : ((a ++ b) ++ c = a ++ (b ++ c))%string.
Proof. induction a as [|x a IH]; [done|]. by rewrite !app_cons_s, IH. Qed.

Lemma app_nil_r_s (a : string) : (a ++ "")%string = a.
Proof. induction a as [|x a IH]; [done|]. by rewrite app_cons_s, IH. Qed.

Lemma length_app_s (a b : string) :
  String.length (a ++ b) = (String.length a + String.length b)%nat.
Proof. induction a as [|x a IH]; [done|]. rewrite app_cons_s. simpl. by rewrite IH. Qed.

Lemma lastByte_app (s t : string) :
  t ≠ "" → lastByte (s ++ t) = lastByte t.
Proof.
  intros Ht. induction s as [|a s IH]; [done|].
  rewrite app_cons_s. simpl. rewrite IH.
  destruct (s ++ t)%string eqn:Est; [|done].
  destruct s; [by rewrite app_nil_l_s in Est | discriminate].
Qed.

Lemma lastByte_nl (s : string) : lastByte (s ++ nl) = Some LF.
Proof. by rewrite lastByte_app. Qed.

(** ** The matcher is sound for a declarative reading of the pattern *)

Module RegexpFacts.
Import RegexpSpec.

Lemma matchAt_sound (r : Regexp) :
  ∀ k i s c res,
    matchAt r k i s c = Some res →
    ∃ j s' c', Matches r i s c j s' c' ∧ k j s' c' = Some res.
Proof.
  induction r as [| |b|ranges|r1 IH1 r2 IH2|r IH|n r IH];
    intros k i s c res H; simpl in H.
  - destruct (Nat.eqb_spec i 0) as [->|]; [|done].
    eauto 10 using Matches.
  - destruct s; [|done]. eauto 10 using Matches.
  - destruct s as [|a s]; [done|].
    destruct (Ascii.eqb_spec a b) as [->|]; [|done].
    eauto 10 using Matches.
  - destruct s as [|a s]; [done|].
    destruct (inClass ranges a) eqn:Hin; [|done].
    eauto 10 using Matches.
  - apply IH1 in H as (j & s' & c' & H1 & H).
    apply IH2 in H as (j' & s'' & c'' & H2 & H).
    eauto 10 using Matches.
  - remember (String.length s) as fuel eqn:Hfuel. clear Hfuel.
    revert i s c res H.
    induction fuel as [|fuel IHfuel]; intros i s c res H;
      apply IH in H as (j & s' & c' & H1 & H).
    + eauto 10 using Matches.
    + destruct (i <? j)%nat; [|by eauto 10 using Matches].
      match type of H with
      | match ?it with _ => _ end = _ => destruct it as [res'|] eqn:Hit
      end; [|by eauto 10 using Matches].
      injection H as ->.
      apply IHfuel in Hit as (j' & s'' & c'' & H2 & H).
      eauto 10 using Matches.
  - apply IH in H as (j & s' & c' & H1 & H). eauto 10 using Matches.
Qed.

(** What a match consumes is a prefix of the text that remained, and the
    offset advances by its length. *)
Lemma Matches_prefix r i s c j s' c' :
  Matches r i s c j s' c' →
  ∃ w, s = (w ++ s')%string ∧ j = (i + String.length w)%nat.
Proof.
  induction 1 as [s c|i c|b i s c|ranges a i s c _
                  |r1 r2 i s c j s' c' k s'' c'' _ IH1 _ IH2
                  |n r i s c j s' c' _ IH|r i s c j s' c' _ IH
                  |r i s c j s' c' k s'' c'' _ IH1 _ IH2].
  - by exists "".
  - exists "". simpl. split; [done|lia].
  - exists (String b ""). simpl. split; [done|lia].
  - exists (String a ""). simpl. split; [done|lia].
  - destruct IH1 as (w1 & -> & ->), IH2 as (w2 & -> & ->).
    exists (w1 ++ w2)%string. rewrite app_assoc_s, length_app_s. split; [done|lia].
  - done.
  - done.
  - destruct IH1 as (w1 & -> & ->), IH2 as (w2 & -> & ->).
    exists (w1 ++ w2)%string. rewrite app_assoc_s, length_app_s. split; [done|lia].
Qed.

Lemma Matches_caps_length r i s c j s' c' :
  Matches r i s c j s' c' → length c' = length c.
Proof.
  induction 1; try done; try congruence.
  by rewrite length_insert.
Qed.

(** A match leaves the captures of the groups it does not have. *)
Lemma Matches_caps_other r i s c j s' c' (n : nat) :
  Matches r i s c j s' c' → n ∉ groups r → c' !! n = c !! n.
Proof.
  induction 1 as [| | | |r1 r2 i s c j s' c' k s'' c'' _ IH1 _ IH2
                  |m r i s c j s' c' _ IH|r i s c j s' c' _ IH
                  |r i s c j s' c' k s'' c'' _ IH1 _ IH2];
    cbn [groups]; intros Hn; try done.
  - rewrite IH2, IH1; [done|..]; intros ?; apply Hn, elem_of_app; auto.
  - apply not_elem_of_cons in Hn as [Hne Hn].
    rewrite list_lookup_insert_ne by done. auto.
  - auto.
  - rewrite IH2, IH1; auto.
Qed.

(** A repeated class, matched to the end of the text, ends in a byte of
    the class. *)
Lemma Matches_plus_class_end ranges i s c j c' :
  Matches (Plus (CharClass ranges)) i s c j "" c' →
  ∃ a, lastByte s = Some a ∧ inClass ranges a = true.
Proof.
  intros H. remember (Plus (CharClass ranges)) as r eqn:Hr.
  remember "" as e eqn:He.
  induction H as [| | | | | |r i s c j s' c' H1 _
                  |r i s c j s' c' k s'' c'' H1 _ H2 IH];
    try discriminate; injection Hr as ->; subst.
  - inversion H1; subst. eauto.
  - destruct (IH eq_refl eq_refl) as (a & Ha & Hin).
    inversion H1; subst. exists a. split; [|done].
    simpl. by destruct s'.
Qed.

(** A repeated group that begins with a literal byte consumes a text that
    begins with this byte. *)
Lemma Matches_plus_literal n b r i s c j s' c' :
  Matches (Plus (Capture n (Concat (Literal b) r))) i s c j s' c' →
  ∃ w, s = (String b w ++ s')%string ∧ j = (i + S (String.length w))%nat.
Proof.
  intros H.
  assert (∀ i s c j s' c',
            Matches (Capture n (Concat (Literal b) r)) i s c j s' c' →
            ∃ w, s = (String b w ++ s')%string
                 ∧ j = (i + S (String.length w))%nat) as Hone.
  { clear. intros i s c j s' c' H.
    inversion H as [| | | | |? ? ? ? ? ? ? ? Hcat| |]; subst; clear H.
    inversion Hcat as [| | | |? ? ? ? ? ? ? ? ? ? ? Hlit Hr| | |]; subst.
    inversion Hlit; subst.
    apply Matches_prefix in Hr as (w & -> & ->). exists w. split; [done|lia]. }
  inversion H as [| | | | | |? ? ? ? ? ? ? H1|? ? ? ? ? ? ? ? ? ? H1 H2]; subst.
  - eauto.
  - apply Hone in H1 as (w1 & -> & ->).
    apply Matches_prefix in H2 as (w2 & -> & ->).
    exists (w1 ++ w2)%string.
    rewrite !app_cons_s, app_assoc_s, length_app_s. split; [done|lia].
Qed.

(** A successful search is a match at some offset, whose bounds are stored
    as group 0. *)
Lemma searchFrom_sound r n :
  ∀ s i c,
    searchFrom r n i s = Some c →
    ∃ p t j t' c',
      s = (p ++ t)%string
      ∧ Matches r (i + String.length p) t (replicate (S n) None) j t' c'
      ∧ c = <[0%nat := Some ((i + String.length p)%nat, j)]> c'.
Proof.
  induction s as [|a s IH]; intros i c H; simpl in H.
  - destruct (matchAt _ _ _ _ _) eqn:Hm; [|done].
    apply matchAt_sound in Hm as (j & s' & c' & Hm' & Hk).
    injection Hk as <-. injection H as <-.
    exists "", "", j, s', c'. cbn [String.length]. by rewrite Nat.add_0_r.
  - destruct (matchAt _ _ _ _ _) eqn:Hm.
    + apply matchAt_sound in Hm as (j & s' & c' & Hm' & Hk).
      injection Hk as <-. injection H as <-.
      exists "", (String a s), j, s', c'. cbn [String.length].
      by rewrite Nat.add_0_r.
    + apply IH in H as (p & t & j & t' & c' & -> & Hm' & ->).
      exists (String a p), t, j, t', c'. cbn [String.length].
      by rewrite <- Nat.add_succ_comm.
Qed.

Lemma lookup_map {A B} (f : A → B) (l : list A) (i : nat) :
  map f l !! i = f <$> l !! i.
Proof.
  revert i. induction l as [|x l IH]; intros [|i]; try done. apply IH.
Qed.

Lemma substring_prefix (w s : string) :
  substring 0 (String.length w) (w ++ s) = w.
Proof.
  induction w as [|a w IH]; [by destruct s|].
  rewrite app_cons_s. simpl. by rewrite IH.
Qed.

End RegexpFacts.

(** The pattern ends in [[0-9]+$]: a text it matches ends in a digit. *)
Lemma registryRegex_ends_in_digit (s : string) (tokens : list string) :
  FindStringSubmatch registryRegex s = Some tokens →
  ∃ a, lastByte s = Some a ∧ inClass [("0", "9")]%char a = true.
Proof.
  unfold FindStringSubmatch. intros H.
  destruct (searchFrom _ _ _ _) as [c|] eqn:Hs; [clear H|done].
  apply RegexpFacts.searchFrom_sound in Hs
    as (p & t & j & t' & c' & -> & Hm & _).
  unfold registryRegex in Hm.
  inversion Hm as [| | | |? ? ? ? ? j1 s1 c1 ? ? ? Hbegin Hm1| | |]; subst; clear Hm.
  inversion Hm1 as [| | | |? ? ? ? ? j2 s2 c2 ? ? ? Hname Hm2| | |]; subst; clear Hm1.
  inversion Hm2 as [| | | |? ? ? ? ? j3 s3 c3 ? ? ? Heq Hm3| | |]; subst; clear Hm2.
  inversion Hm3 as [| | | |? ? ? ? ? j4 s4 c4 ? ? ? Hid Hend| | |]; subst; clear Hm3.
  inversion Hend; subst; clear Hend.
  inversion Hid as [| | | | |? ? ? ? ? ? ? ? Hdigits| |]; subst; clear Hid.
  apply RegexpFacts.Matches_plus_class_end in Hdigits as (a & Ha & Hin).
  apply RegexpFacts.Matches_prefix in Hbegin as (w0 & -> & _).
  apply RegexpFacts.Matches_prefix in Hname as (w1 & -> & _).
  apply RegexpFacts.Matches_prefix in Heq as (w2 & -> & _).
  exists a. split; [|done].
  assert (s3 ≠ "") by (intros ->; discriminate).
  rewrite <- !app_assoc_s. by rewrite lastByte_app.
Qed.

(** A line as [ReadString] delivers it, with its newline, never matches. *)
Lemma registryRegex_rejects_lines (s : string) :
  FindStringSubmatch registryRegex (s ++ nl) = None.
Proof.
  destruct (FindStringSubmatch _ _) as [tokens|] eqn:H; [|done].
  apply registryRegex_ends_in_digit in H as (a & Ha & Hin).
  rewrite lastByte_nl in Ha. injection Ha as <-. discriminate.
Qed.

(** Whatever text the pattern matches, the second token is the name: a
    byte of a name, a dot, and what follows. *)
Lemma registryRegex_second_token (s : string) (tokens : list string) :
  FindStringSubmatch registryRegex s = Some tokens →
  ∃ a rest, tokens !! 1%nat = Some (String a (String "." rest))
            ∧ inClass [("A", "Z"); ("a", "z"); ("0", "9"); ("_", "_")]%char a
              = true.
Proof.
  unfold FindStringSubmatch. intros H.
  destruct (searchFrom _ _ _ _) as [c|] eqn:Hs; [|done]. injection H as <-.
  apply RegexpFacts.searchFrom_sound in Hs
    as (p & t & j & t' & c' & -> & Hm & ->).
  unfold registryRegex in Hm.
  inversion Hm as [| | | |? ? ? ? ? j1 s1 c1 ? ? ? Hbegin Hm1| | |]; subst; clear Hm.
  inversion Hbegin as [? ? Hz| | | | | | |]; subst; clear Hbegin.
  assert (p = "") as -> by (destruct p; [done|discriminate]).
  rewrite app_nil_l_s in *.
  inversion Hm1 as [| | | |? ? ? ? ? j2 s2 c2 ? ? ? Hname Hm2| | |]; subst; clear Hm1.
  inversion Hname as [| | | | |? ? ? ? ? ? ? cN HN| |]; subst; clear Hname.
  pose proof (RegexpFacts.Matches_caps_length _ _ _ _ _ _ _ HN) as HlenN.
  assert (c' !! 1%nat = Some (Some (0%nat, j2))) as Hc1.
  { rewrite (RegexpFacts.Matches_caps_other _ _ _ _ _ _ _ 1 Hm2).
    - apply list_lookup_insert_eq. rewrite HlenN. simpl. lia.
    - intros Hin%list_elem_of_In. vm_compute in Hin.
      destruct Hin as [Hin|[]]. discriminate Hin. }
  rewrite RegexpFacts.lookup_map.
  rewrite list_lookup_insert_ne by lia. rewrite Hc1.
  cbn [fmap option_fmap option_map slice].
  inversion HN as [| | | |? ? ? ? ? j3 s3 c3 ? ? ? Hfirst Hmore| | |]; subst.
  inversion Hfirst as [| | |? a ? sa ? Ha| | | |]; subst.
  apply RegexpFacts.Matches_plus_literal in Hmore as (w' & -> & ->).
  exists a, w'. split; [|done]. f_equal.
  rewrite Nat.sub_0_r.
  change (String a (String "." w' ++ s2))
    with (String a (String "." w') ++ s2)%string.
  change (1 + S (String.length w'))%nat
    with (String.length (String a (String "." w'))).
  apply RegexpFacts.substring_prefix.
Qed.

(** ** The loop of the loader, line by line *)

Lemma after_nil st : after st [] = st.
Proof. destruct st. unfold after. simpl. by rewrite app_nil_r. Qed.

Lemma after_after st evs evs' : after (after st evs) evs' = after st (evs ++ evs').
Proof. unfold after. simpl. by rewrite app_assoc. Qed.

Lemma emit_after e st : emit e st = (Ok tt, after st [e]).
Proof. reflexivity. Qed.

Lemma cut_line (s line rest : string) :
  cut LF s = Some (line, rest) →
  s = (line ++ rest)%string ∧ ∃ body, line = (body ++ nl)%string.
Proof.
  revert line rest. induction s as [|a s IH]; intros line rest H; [done|].
  simpl in H. destruct (Ascii.eqb_spec a LF) as [->|Hne].
  - injection H as <- <-. split; [done|]. by exists "".
  - destruct (cut LF s) as [[l r]|]; [|done]. injection H as <- <-.
    destruct (IH l r eq_refl) as (-> & body & ->).
    split; [done|]. by exists (String a body).
Qed.

Lemma cut_isLine (l rest : string) :
  isLine l → cut LF (l ++ rest) = Some (l, rest).
Proof.
  unfold isLine. revert rest. induction l as [|a l IH]; intros rest H; [done|].
  rewrite app_cons_s. simpl in *. destruct (Ascii.eqb a LF).
  - by injection H as <-.
  - destruct (cut LF l) as [[l' r]|] eqn:Hc; [|done].
    injection H as -> ->. by rewrite (IH _ eq_refl).
Qed.

Lemma cut_Some_isLine (s line rest : string) :
  cut LF s = Some (line, rest) → isLine line.
Proof.
  unfold isLine. revert line rest.
  induction s as [|a s IH]; intros line rest H; [done|].
  simpl in H. destruct (Ascii.eqb a LF) eqn:Ha.
  - injection H as <- <-. simpl. by rewrite Ha.
  - destruct (cut LF s) as [[l r]|]; [|done]. injection H as <- <-.
    simpl. by rewrite Ha, (IH l r eq_refl).
Qed.

Lemma isLine_length (l : string) : isLine l → (0 < String.length l)%nat.
Proof. destruct l; [done|]. simpl. lia. Qed.

Lemma isLine_nl (l : string) : isLine l → ∃ body, l = (body ++ nl)%string.
Proof. intros H. by apply cut_line in H as [_ ?]. Qed.

Section Loop.
Variable re : Regexp.
Variable path : string.

(** One iteration on a complete line. *)
Lemma loadLoop_line fuel l rest fin lines items st :
  isLine l →
  loadLoop re path (S fuel) (mkReader (l ++ rest) fin) lines items st =
  match checkLine re l with
  | Entry key id =>
      loadLoop re path fuel (mkReader rest fin) (lines + 1)
               (<[key := id]> items) st
  | c => (Panic (lineFault path lines c), st)
  end.
Proof.
  intros Hl. cbn [loadLoop]. unfold ReadString. cbn [buf final].
  rewrite (cut_isLine _ _ Hl). unfold checkLine.
  destruct (FindStringSubmatch re l) as [tokens|]; [|done].
  unfold tokenAt, mbind, M_bind, bind.
  destruct (tokens !! 1%nat) as [tok1|]; [|done]. cbn.
  destruct (strconv.ParseInt tok1 0 32) as [val [e|]]; [done|].
  destruct (MaxUint16 <? val); [done|].
  destruct (tokens !! 0%nat) as [tok0|]; done.
Qed.

(** The last iteration: no newline is left. *)
Lemma loadLoop_end fuel tail fin lines items st :
  cut LF tail = None →
  loadLoop re path (S fuel) (mkReader tail fin) lines items st =
  if error_eqb_EOF fin then (Ok tt, after st [RegistryUpdate items])
  else (Panic (Panicf fin "read registry file error :%s" [VString path]),
        st).
Proof.
  intros Ht. cbn [loadLoop]. unfold ReadString. cbn [buf final].
  rewrite Ht. by destruct (error_eqb_EOF fin).
Qed.

(** The loop over accepted lines: the counter advances by one per line,
    and the fuel that is left still covers the rest. *)
Lemma loadLoop_accepted pre :
  ∀ fuel rest fin lines items st,
    Forall isLine pre → Forall (accepted re) pre →
    loadLoop re path (length pre + fuel) (mkReader (joinLines pre ++ rest) fin)
             lines items st =
    loadLoop re path fuel (mkReader rest fin)
             (lines + Z.of_nat (length pre)) (addEntries re items pre) st.
Proof.
  induction pre as [|l pre IH]; intros fuel rest fin lines items st Hl Ha.
  - simpl. by rewrite Z.add_0_r.
  - apply Forall_cons in Hl as [Hl Hls]. apply Forall_cons in Ha as [[key [id Ha]] Has].
    cbn [joinLines foldr length Nat.add]. rewrite app_assoc_s.
    rewrite loadLoop_line by done. rewrite Ha.
    fold (joinLines pre). rewrite IH by done.
    cbn [addEntries foldl]. rewrite Ha. f_equal. lia.
Qed.

Lemma joinLines_length pre :
  Forall isLine pre → (length pre <= String.length (joinLines pre))%nat.
Proof.
  induction 1 as [|l pre Hl _ IH]; [done|].
  cbn [joinLines foldr length]. rewrite length_app_s.
  apply isLine_length in Hl. fold (joinLines pre). lia.
Qed.

(** Accepted lines, then a line that fails a check. *)
Lemma loadRegistryWith_rejected pre bad rest fin st :
  Forall isLine pre → Forall (accepted re) pre →
  isLine bad → rejected re bad →
  loadRegistryWith re (mkReader (joinLines pre ++ bad ++ rest) fin) path st =
  (Panic (lineFault path (Z.of_nat (length pre)) (checkLine re bad)), st).
Proof.
  intros Hl Ha Hb Hr. unfold loadRegistryWith. cbn [buf].
  rewrite !length_app_s.
  pose proof (joinLines_length pre Hl). pose proof (isLine_length bad Hb).
  replace (S (String.length (joinLines pre) + (String.length bad + String.length rest)))
    with (length pre + S (String.length (joinLines pre) - length pre
                          + (String.length bad + String.length rest)))%nat by lia.
  rewrite loadLoop_accepted by done. rewrite loadLoop_line by done.
  destruct (checkLine re bad) eqn:Hc; try done. by destruct (Hr key id).
Qed.

(** Accepted lines, then the end of the input; what follows the last
    newline is dropped. *)
Lemma loadRegistryWith_end pre tail fin st :
  Forall isLine pre → Forall (accepted re) pre → cut LF tail = None →
  loadRegistryWith re (mkReader (joinLines pre ++ tail) fin) path st =
  if error_eqb_EOF fin
  then (Ok tt, after st [RegistryUpdate (addEntries re ∅ pre)])
  else (Panic (Panicf fin "read registry file error :%s" [VString path]),
        st).
Proof.
  intros Hl Ha Ht. unfold loadRegistryWith. cbn [buf].
  rewrite !length_app_s. pose proof (joinLines_length pre Hl).
  replace (S (String.length (joinLines pre) + String.length tail))
    with (length pre + S (String.length (joinLines pre) - length pre
                          + String.length tail))%nat by lia.
  rewrite loadLoop_accepted by done. by rewrite loadLoop_end.
Qed.

End Loop.

(** ** Every input is a sequence of complete lines and a rest *)

Lemma joinLines_app (ls ls' : list string) :
  joinLines (ls ++ ls') = (joinLines ls ++ joinLines ls')%string.
Proof.
  induction ls as [|l ls IH]; [done|].
  cbn [joinLines foldr app]. fold (joinLines (ls ++ ls')) (joinLines ls).
  by rewrite IH, app_assoc_s.
Qed.

Lemma lines_exist (s : string) :
  ∃ ls tail, s = (joinLines ls ++ tail)%string ∧ Forall isLine ls
             ∧ cut LF tail = None.
Proof.
  remember (String.length s) as n eqn:Hn.
  revert s Hn. induction (lt_wf n) as [n _ IH]; intros s ->.
  destruct (cut LF s) as [[l rest]|] eqn:Hc.
  - pose proof (cut_Some_isLine _ _ _ Hc) as Hl.
    apply cut_line in Hc as [-> _].
    pose proof (isLine_length _ Hl).
    destruct (IH (String.length rest)) with (s := rest)
      as (ls & tail & -> & Hls & Ht); [rewrite length_app_s; lia|done|].
    exists (l :: ls), tail. split_and!; [|by constructor|done].
    cbn [joinLines foldr]. by rewrite app_assoc_s.
  - by exists [], s.
Qed.

Lemma checkLine_dec (re : Regexp) (l : string) :
  accepted re l ∨ rejected re l.
Proof.
  unfold accepted, rejected.
  destruct (checkLine re l); eauto; by right.
Qed.

(** A list of lines is accepted throughout, or has a first rejected line. *)
Lemma first_rejected (re : Regexp) (ls : list string) :
  Forall (accepted re) ls
  ∨ ∃ pre bad post, ls = (pre ++ bad :: post)%list ∧ Forall (accepted re) pre
                    ∧ rejected re bad.
Proof.
  induction ls as [|l ls IH]; [by left|].
  destruct (checkLine_dec re l) as [Ha|Hr].
  - destruct IH as [IH|(pre & bad & post & -> & Hpre & Hbad)].
    + left. by constructor.
    + right. exists (l :: pre), bad, post. split_and!; [done|by constructor|done].
  - right. by exists [], l, ls.
Qed.

(** The two ways a load ends, for every input: at the first line that
    fails a check, or at the end of the input.  In neither does the loop
    run out of fuel. *)
Lemma loadRegistryWith_cases (re : Regexp) (file : Reader) (path : string)
      (st : State) :
  (∃ pre bad rest,
      buf file = (joinLines pre ++ bad ++ rest)%string
      ∧ Forall isLine pre ∧ Forall (accepted re) pre
      ∧ isLine bad ∧ rejected re bad
      ∧ loadRegistryWith re file path st =
        (Panic (lineFault path (Z.of_nat (length pre)) (checkLine re bad)),
         st))
  ∨ (∃ ls tail,
        buf file = (joinLines ls ++ tail)%string
        ∧ Forall isLine ls ∧ Forall (accepted re) ls ∧ cut LF tail = None
        ∧ loadRegistryWith re file path st =
          if error_eqb_EOF (final file)
          then (Ok tt, after st [RegistryUpdate (addEntries re ∅ ls)])
          else (Panic (Panicf (final file) "read registry file error :%s"
                              [VString path]), st)).
Proof.
  destruct file as [s fin]. cbn [buf final].
  destruct (lines_exist s) as (ls & tail & -> & Hls & Ht).
  destruct (first_rejected re ls) as [Ha|(pre & bad & post & -> & Hpre & Hbad)].
  - right. exists ls, tail. split_and!; try done.
    by apply loadRegistryWith_end.
  - left. apply Forall_app in Hls as [Hl1 Hl2].
    apply Forall_cons in Hl2 as [Hb Hl2].
    exists pre, bad, (joinLines post ++ tail)%string.
    assert (joinLines (pre ++ bad :: post) ++ tail
            = joinLines pre ++ bad ++ joinLines post ++ tail)%string as ->.
    { rewrite joinLines_app. cbn [joinLines foldr]. fold (joinLines post).
      by rewrite !app_assoc_s. }
    split_and!; try done. by apply loadRegistryWith_rejected.
Qed.

Lemma loadLoop_fuel (re : Regexp) (file : Reader) (path : string)
      (st : State) :
  (loadRegistryWith re file path st).1
  ≠ Panic (RuntimeError "loadLoop: out of fuel").
Proof.
  destruct (loadRegistryWith_cases re file path st)
    as [(pre & bad & rest & _ & _ & _ & _ & _ & ->)
       |(ls & tail & _ & _ & _ & _ & ->)].
  - cbn [fst]. by destruct (checkLine re bad).
  - by destruct (error_eqb_EOF (final file)).
Qed.

(** ** The loader with the pattern of the package *)

(** No line of a registry file passes the pattern: the line still carries
    its newline, and the pattern ends in [[0-9]+$]. *)
Lemma checkLine_registryRegex (l : string) :
  isLine l → checkLine registryRegex l = Mismatch.
Proof.
  intros [body ->]%isLine_nl. unfold checkLine.
  by rewrite registryRegex_rejects_lines.
Qed.

Lemma not_accepted_registryRegex (l : string) :
  isLine l → ¬ accepted registryRegex l.
Proof. intros Hl (key & id & H). by rewrite checkLine_registryRegex in H. Qed.

(** [ParseInt] takes no name for a number: the dot is no digit in any
    base. *)
Lemma ParseInt_name (a : ascii) (rest : string) :
  inClass [("A", "Z"); ("a", "z"); ("0", "9"); ("_", "_")]%char a = true →
  strconv.ParseInt (String a (String "." rest)) 0 32
  = (0, Some strconv.ErrSyntax).
Proof.
  intros Ha.
  destruct a as [[] [] [] [] [] [] [] []];
    try (vm_compute in Ha; discriminate Ha);
    destruct rest; vm_compute; reflexivity.
Qed.

(** Whatever the text, with or without a newline, the checks of an
    iteration never yield an entry: the pattern does not match, or its
    second token, the name, is handed to [ParseInt]. *)
Lemma checkLine_never_an_entry (s : string) :
  checkLine registryRegex s = Mismatch
  ∨ checkLine registryRegex s = ParseError strconv.ErrSyntax.
Proof.
  unfold checkLine.
  destruct (FindStringSubmatch registryRegex s) as [tokens|] eqn:H; [|by left].
  right. apply registryRegex_second_token in H as (a & rest & -> & Ha).
  by rewrite ParseInt_name.
Qed.

(** What [loadRegistry] does, for every input. *)
Lemma loadRegistry_behaviour (file : Reader) (path : string) (st : State) :
  loadRegistry file path st =
  match cut LF (buf file) with
  | Some _ =>
      (Panic (Panicf ErrRegistry invalidFormat [VString path; VInt 0]), st)
  | None =>
      if error_eqb_EOF (final file)
      then (Ok tt, after st [RegistryUpdate ∅])
      else (Panic (Panicf (final file) "read registry file error :%s"
                          [VString path]), st)
  end.
Proof.
  destruct file as [s fin]. unfold loadRegistry, loadRegistryWith.
  cbn [buf final]. destruct (cut LF s) as [[l rest]|] eqn:Hc.
  - pose proof (cut_Some_isLine _ _ _ Hc) as Hl.
    apply cut_line in Hc as [-> _].
    rewrite loadLoop_line by done. by rewrite checkLine_registryRegex.
  - by rewrite loadLoop_end.
Qed.

(** The loader publishes nothing but the empty map, and never reports an id
    out of range. *)
Lemma loadRegistry_publishes_nothing (file : Reader) (path : string)
      (st st' : State) (r : result unit) :
  loadRegistry file path st = (r, st') →
  (st' = st ∨ st' = after st [RegistryUpdate ∅])
  ∧ ∀ err args, r ≠ Panic (Panicf err idOutOfRange args).
Proof.
  rewrite loadRegistry_behaviour.
  destruct (cut LF (buf file)); [|destruct (error_eqb_EOF (final file))];
    intros [= <- <-]; (split; [auto|]); intros err args; done.
Qed.

(** The pattern by itself, on the text of the line without its newline:
    the second token is the name, not the id, and segments of more than one
    byte or a name of one segment do not match. *)
Example registryRegex_tokens :
  FindStringSubmatch registryRegex "a.b.c=42"
  = Some ["a.b.c=42"; "a.b.c"; ".c"; "42"].
Proof. reflexivity. Qed.

Example registryRegex_long_segment :
  FindStringSubmatch registryRegex "ab.cd=42" = None.
Proof. reflexivity. Qed.

Example registryRegex_one_segment :
  FindStringSubmatch registryRegex "a=42" = None.
Proof. reflexivity. Qed.

Example checkLine_without_newline :
  checkLine registryRegex "a.b.c=42" = ParseError strconv.ErrSyntax.
Proof. reflexivity. Qed.

(** The loop itself consumes lines, counts them and reaches each of its
    three failures when the pattern lets a line through. *)
Example digitsLine_loads :
  loadRegistryWith digitsLine (mkReader ("12" ++ nl ++ "7" ++ nl) EOF) "reg" st0
  = (Ok tt, after st0 [RegistryUpdate
                         (<[("7" ++ nl)%string := 7]> {[("12" ++ nl)%string := 12]})]).
Proof. reflexivity. Qed.

Example digitsLine_mismatch :
  loadRegistryWith digitsLine
    (mkReader ("12" ++ nl ++ "7" ++ nl ++ "x" ++ nl) EOF) "reg" st0
  = (Panic (Panicf ErrRegistry invalidFormat [VString "reg"; VInt 2]), st0).
Proof. reflexivity. Qed.

Example digitsLine_parse_error :
  loadRegistryWith digitsLine
    (mkReader ("12" ++ nl ++ "4294967296" ++ nl) EOF) "reg" st0
  = (Panic (Panicf (NumError strconv.ErrRange) invalidFormat
                   [VString "reg"; VInt 1]), st0).
Proof. reflexivity. Qed.

Example digitsLine_out_of_range :
  loadRegistryWith digitsLine (mkReader ("65536" ++ nl) EOF) "reg" st0
  = (Panic (Panicf ErrRegistry idOutOfRange [VString "reg"; VInt 0]), st0).
Proof. reflexivity. Qed.

(** ** The claims on the loader *)

(** C1, where the code departs from the claim: on the registry input
    ["a.b.c=42"] followed by its newline the loader does not accept the
    line.  It panics with the invalid-format message at index 0 and makes no
    call to [gorpc.RegistryUpdate], where the claim has the entry
    ["a.b.c"] to 42 published. *)
Theorem loadRegistry_a_b_c_42 (path : string) (st : State) :
  loadRegistry (mkReader ("a.b.c=42" ++ nl) EOF) path st
  = (Panic (Panicf ErrRegistry invalidFormat [VString path; VInt 0]), st).
Proof. by rewrite loadRegistry_behaviour. Qed.

(** C3, where the code departs from the claim: on ["a.b=65536"] followed by
    its newline the loader panics with the invalid-format message, not with
    the id-out-of-range message; nothing is published. *)
Theorem loadRegistry_a_b_65536 (path : string) (st : State) :
  loadRegistry (mkReader ("a.b=65536" ++ nl) EOF) path st
  = (Panic (Panicf ErrRegistry invalidFormat [VString path; VInt 0]), st)
  ∧ invalidFormat ≠ idOutOfRange.
Proof. by rewrite loadRegistry_behaviour. Qed.

(** How a load ends, whatever the pattern: a panic leaves the state as it
    was (no call was made), and a return has made the one call, with the
    entries of all the complete lines, each of which passed the checks. *)
Lemma loadRegistryWith_outcome (re : Regexp) (file : Reader) (path : string)
      (st st' : State) (r : result unit) :
  loadRegistryWith re file path st = (r, st') →
  match r with
  | Panic _ => st' = st
  | Ok _ =>
      ∃ ls tail,
        buf file = (joinLines ls ++ tail)%string
        ∧ Forall isLine ls ∧ Forall (accepted re) ls ∧ cut LF tail = None
        ∧ final file = EOF
        ∧ st' = after st [RegistryUpdate (addEntries re ∅ ls)]
  end.
Proof.
  destruct (loadRegistryWith_cases re file path st)
    as [(pre & bad & rest & _ & _ & _ & _ & _ & ->)
       |(ls & tail & Hbuf & Hls & Ha & Ht & ->)].
  - by intros [= <- <-].
  - destruct (final file) eqn:Hfin; cbn [error_eqb_EOF];
      intros [= <- <-]; try done.
    by exists ls, tail.
Qed.

(** A complete line that fails a check, anywhere in the input, makes the
    load panic in the state it started in, whatever the pattern. *)
Lemma loadRegistryWith_some_rejected (re : Regexp) (path : string)
      (st : State) (fin : error) (ls : list string) (rest : string) :
  Forall isLine ls → Exists (rejected re) ls →
  ∃ f, loadRegistryWith re (mkReader (joinLines ls ++ rest) fin) path st
       = (Panic f, st).
Proof.
  intros Hls Hex.
  destruct (first_rejected re ls) as [Ha|(pre & bad & post & -> & Hpre & Hbad)].
  - exfalso. apply Exists_exists in Hex as (l & Hin & Hr).
    rewrite Forall_forall in Ha.
    destruct (Ha l Hin) as (key & id & Hc). by destruct (Hr key id).
  - apply Forall_app in Hls as [Hl1 Hl2].
    apply Forall_cons in Hl2 as [Hb Hl2].
    rewrite joinLines_app. cbn [joinLines foldr]. fold (joinLines post).
    rewrite !app_assoc_s. eexists. by apply loadRegistryWith_rejected.
Qed.

(** C2, as the code has it.  The loop checks a line when it has read its
    newline.  When one of the newline-terminated lines [ls] of the input
    fails a check of the loader, whatever precedes and follows it, the load
    panics and the state is the one it started in, so
    [gorpc.RegistryUpdate] was not called.  For every input: after a panic
    no call was made; after a return the end of the input had been
    reached, exactly one call was made, every newline-terminated line of
    the input had passed the checks, and only the entries of these lines
    were published.  The bytes after the last newline are not checked: an
    input without newline, whatever it holds, is loaded and the empty map
    is published. *)
Theorem loadRegistry_no_partial_publish
        (path : string) (st : State) (fin : error)
        (ls : list string) (rest : string) :
  Forall isLine ls → Exists (rejected registryRegex) ls →
  (∃ f, loadRegistry (mkReader (joinLines ls ++ rest) fin) path st
        = (Panic f, st))
  ∧ (∀ file st1 r st2,
        loadRegistry file path st1 = (r, st2) →
        match r with
        | Panic _ => st2 = st1
        | Ok _ =>
            ∃ ls' tail,
              buf file = (joinLines ls' ++ tail)%string
              ∧ Forall isLine ls' ∧ Forall (accepted registryRegex) ls'
              ∧ cut LF tail = None ∧ final file = EOF
              ∧ trace st2
                = trace st1
                  ++ [RegistryUpdate (addEntries registryRegex ∅ ls')]
        end)
  ∧ ∀ tail,
      cut LF tail = None →
      loadRegistry (mkReader tail EOF) path st
      = (Ok tt, after st [RegistryUpdate ∅]).
Proof.
  intros Hls Hex. split_and!.
  - by apply loadRegistryWith_some_rejected.
  - intros file st1 r st2 H. apply loadRegistryWith_outcome in H.
    destruct r; [|done].
    destruct H as (ls' & tail & ? & ? & ? & ? & ? & ->). by exists ls', tail.
  - intros tail Ht. by apply (loadRegistryWith_end registryRegex path []).
Qed.




(** ** Computations *)

Lemma bind_unfold {A B} (m : M A) (k : A → M B) (st : State) :
  (m ≫= k) st
  = match m st with
    | (Ok a, st') => k a st'
    | (Panic f, st') => (Panic f, st')
    end.
Proof. reflexivity. Qed.

Lemma bind_Ok {A B} (m : M A) (k : A → M B) (st st' : State) (a : A) :
  m st = (Ok a, st') → (m ≫= k) st = k a st'.
Proof. intros H. by rewrite bind_unfold, H. Qed.

Lemma bind_Panic {A B} (m : M A) (k : A → M B) (st st' : State) (f : fault) :
  m st = (Panic f, st') → (m ≫= k) st = (Panic f, st').
Proof. intros H. by rewrite bind_unfold, H. Qed.

Lemma bind_assoc {A B C} (m : M A) (k : A → M B) (k' : B → M C) (st : State) :
  ((m ≫= k) ≫= k') st = (m ≫= fun a => k a ≫= k') st.
Proof. rewrite !bind_unfold. by destruct (m st) as [[a|f] st']. Qed.

Lemma ret_bind {A B} (a : A) (k : A → M B) (st : State) :
  (ret a ≫= k) st = k a st.
Proof. reflexivity. Qed.

Lemma mret_bind {A B} (a : A) (k : A → M B) (st : State) :
  (mret a ≫= k) st = k a st.
Proof. reflexivity. Qed.

Lemma panic_bind {A B} (f : fault) (k : A → M B) (st : State) :
  (panic f ≫= k) st = (Panic f, st).
Proof. reflexivity. Qed.

Lemma get_bind {B} (k : State → M B) (st : State) : (get ≫= k) st = k st st.
Proof. reflexivity. Qed.

Lemma emit_bind {B} (e : event) (k : unit → M B) (st : State) :
  (emit e ≫= k) st = k tt (after st [e]).
Proof. reflexivity. Qed.

Lemma setFlags_bind {B} vars formal (k : unit → M B) (st : State) :
  (setFlags vars formal ≫= k) st
  = k tt (mkState (runner st) vars formal (config st) (trace st)).
Proof. reflexivity. Qed.

Lemma setConfig_bind {B} c (k : unit → M B) (st : State) :
  (setConfig c ≫= k) st = k tt (withConfig st c).
Proof. reflexivity. Qed.

Lemma setRunner_bind {B} r (k : unit → M B) (st : State) :
  (setRunner r ≫= k) st
  = k tt (mkState r (flagVars st) (flagFormal st) (config st) (trace st)).
Proof. reflexivity. Qed.

(** One step of a computation whose head is a primitive. *)
Ltac mstep :=
  repeat first
    [ rewrite bind_assoc | rewrite ret_bind | rewrite mret_bind
    | rewrite panic_bind | rewrite get_bind | rewrite emit_bind
    | rewrite setFlags_bind | rewrite setConfig_bind | rewrite setRunner_bind ].

(** ** The flag registrar *)

(** The loop of [checkName] over the full names already recorded. *)
Lemma checkName_loop (l : list (string * string)) (full : string) (st : State) :
  forM_ l (fun kv => if String.eqb kv.2 full
                     then panic (duplicateFullname full) else ret tt) st
  = if existsb (fun kv => String.eqb kv.2 full) l
    then (Panic (duplicateFullname full), st) else (Ok tt, st).
Proof.
  induction l as [|kv l IH]; [done|].
  cbn [forM_ existsb]. rewrite bind_unfold.
  destruct (String.eqb kv.2 full); [done|]. cbn. apply IH.
Qed.

Lemma fullname_recorded (m : gmap string string) (full : string) :
  existsb (fun kv => String.eqb kv.2 full) (map_to_list m) = true
  ↔ ∃ name, m !! name = Some full.
Proof.
  rewrite existsb_exists. split.
  - intros ([name f] & Hin & Heq). apply String.eqb_eq in Heq. simpl in Heq.
    subst f. exists name. apply elem_of_map_to_list. by apply list_elem_of_In.
  - intros [name H]. exists (name, full). split.
    + apply list_elem_of_In. by apply elem_of_map_to_list.
    + apply String.eqb_refl.
Qed.

(** [checkName] alone. *)
Lemma checkName_behaviour (name full : string) (st : State) :
  checkName name full st
  = match fullname (runner st) !! name with
    | Some _ => (Panic (duplicateName name), st)
    | None =>
        if existsb (fun kv => String.eqb kv.2 full)
                   (map_to_list (fullname (runner st)))
        then (Panic (duplicateFullname full), st)
        else (Ok tt,
              mkState (setFullname (runner st)
                                   (<[name := full]> (fullname (runner st))))
                      (flagVars st) (flagFormal st) (config st) (trace st))
    end.
Proof.
  unfold checkName. rewrite bind_unfold. cbn [get].
  rewrite bind_unfold.
  destruct (fullname (runner st) !! name); [done|]. cbn [ret M_ret mret].
  rewrite bind_unfold.
  fold (duplicateFullname full). rewrite checkName_loop.
  by destruct (existsb _ _).
Qed.

(** A declaration, in full. *)
Lemma declare_behaviour (k : kind) (name full : string) (v : value)
      (description : string) (st : State) :
  declare k name full v description st
  = match fullname (runner st) !! name with
    | Some _ => (Panic (duplicateName name), st)
    | None =>
        if existsb (fun kv => String.eqb kv.2 full)
                   (map_to_list (fullname (runner st)))
        then (Panic (duplicateFullname full), st)
        else
          match flagFormal st !! name with
          | Some _ =>
              (Panic (PanicString ("flag redefined: " ++ name)),
               mkState (setFullname (runner st)
                          (<[name := full]> (fullname (runner st))))
                       (flagVars st) (flagFormal st) (config st) (trace st))
          | None => (Ok tt, declared k name full v st)
          end
    end.
Proof.
  unfold declare. rewrite bind_unfold, checkName_behaviour.
  destruct (fullname (runner st) !! name); [done|].
  destruct (existsb _ _); [done|].
  unfold flag_define. rewrite !bind_unfold. cbn [get flagFormal].
  by destruct (flagFormal st !! name).
Qed.

Lemma fullname_setFlag (k : kind) (name : string) (p : nat) (r : _Runner) :
  fullname (setFlag k name p r) = fullname r.
Proof. by destruct k. Qed.

Lemma bind_ext {A B} (m : M A) (k k' : A → M B) (st : State) :
  (∀ a st', k a st' = k' a st') → (m ≫= k) st = (m ≫= k') st.
Proof.
  intros H. rewrite !bind_unfold. destruct (m st) as [[a|f] st']; auto.
Qed.

Lemma bind_ret_r (m : M unit) (st : State) : (m;; ret tt) st = m st.
Proof. rewrite bind_unfold. by destruct (m st) as [[[]|f] st']. Qed.

(** [New] is the empty runner followed by its five declarations. *)
Lemma New_declareAll (name : string) (st : State) :
  New name st = (setRunner emptyRunner;; declareAll builtin) st.
Proof.
  unfold New, declareAll, builtin. cbn [forM_].
  do 5 (apply bind_ext; intros ? ?). symmetry. apply bind_ret_r.
Qed.

(** A declaration that returns adds its names to those recorded, which stay
    pairwise distinct; it makes no call that the trace records. *)
Lemma declareOne_records (d : declaration) (acc : list declaration)
      (st st' : State) :
  declareOne d st = (Ok tt, st') →
  records (runner st) acc →
  NoDup (dName <$> acc) → NoDup (dFull <$> acc) →
  records (runner st') (acc ++ [d])
  ∧ NoDup (dName <$> acc ++ [d]) ∧ NoDup (dFull <$> acc ++ [d])
  ∧ trace st' = trace st.
Proof.
  unfold declareOne. rewrite declare_behaviour.
  destruct (fullname (runner st) !! dName d) eqn:Hname; [done|].
  destruct (existsb _ _) eqn:Hfull; [done|].
  destruct (flagFormal st !! dName d); [done|].
  intros [= <-] Hrec Hn Hf.
  assert (∀ d', d' ∈ acc → dName d' ≠ dName d) as Hfresh.
  { intros d' Hd' Heq.
    assert (fullname (runner st) !! dName d = Some (dFull d')) as H
      by (apply Hrec; eauto).
    congruence. }
  assert (∀ d', d' ∈ acc → dFull d' ≠ dFull d) as Hfresh'.
  { intros d' Hd' Heq.
    assert (existsb (fun kv => String.eqb kv.2 (dFull d))
                    (map_to_list (fullname (runner st))) = true) as H.
    { apply fullname_recorded. exists (dName d'). apply Hrec. eauto. }
    congruence. }
  split_and!; [| | |done].
  - intros name full. cbn [declared runner].
    rewrite fullname_setFlag. cbn [setFullname fullname].
    rewrite lookup_insert. case_decide as Hcase.
    + subst name. split.
      * intros [= <-]. exists d. rewrite elem_of_app, list_elem_of_singleton. auto.
      * intros (d' & [Hd'| ->%list_elem_of_singleton]%elem_of_app & Hn' & Hf');
          [by destruct (Hfresh d' Hd')|congruence].
    + split.
      * intros (d' & Hd' & ? & ?)%Hrec. exists d'. rewrite elem_of_app. auto.
      * intros (d' & [Hd'| ->%list_elem_of_singleton]%elem_of_app & Hn' & Hf');
          [apply Hrec; eauto|congruence].
  - rewrite fmap_app. apply NoDup_app. split_and!; [done| |apply NoDup_singleton].
    intros x (d' & -> & Hd')%list_elem_of_fmap Hx%list_elem_of_singleton.
    by destruct (Hfresh d' Hd').
  - rewrite fmap_app. apply NoDup_app. split_and!; [done| |apply NoDup_singleton].
    intros x (d' & -> & Hd')%list_elem_of_fmap Hx%list_elem_of_singleton.
    by destruct (Hfresh' d' Hd').
Qed.

Lemma declareAll_records (ds : list declaration) :
  ∀ (acc : list declaration) (st st' : State),
    declareAll ds st = (Ok tt, st') →
    records (runner st) acc →
    NoDup (dName <$> acc) → NoDup (dFull <$> acc) →
    records (runner st') (acc ++ ds)
    ∧ NoDup (dName <$> acc ++ ds) ∧ NoDup (dFull <$> acc ++ ds)
    ∧ trace st' = trace st.
Proof.
  induction ds as [|d ds IH]; intros acc st st' H Hrec Hn Hf.
  - injection H as <-. by rewrite app_nil_r.
  - unfold declareAll in H. cbn [forM_] in H. rewrite bind_unfold in H.
    destruct (declareOne d st) as [[[]|f] st1] eqn:Hd; [|done].
    destruct (declareOne_records d acc st st1 Hd Hrec Hn Hf)
      as (Hrec1 & Hn1 & Hf1 & Htr1).
    destruct (IH (acc ++ [d]) st1 st' H Hrec1 Hn1 Hf1)
      as (Hrec2 & Hn2 & Hf2 & Htr2).
    rewrite <- app_assoc in Hrec2, Hn2, Hf2. cbn [app] in Hrec2, Hn2, Hf2.
    split_and!; try done. congruence.
Qed.

(** C5. After [New] and any sequence [ds] of declarations that all
    returned, the short names of the options declared are pairwise distinct
    and so are their fully-qualified names, and the runner records exactly
    these; neither flag parsing nor any other call was made.  Declaring one
    more option whose short name is among them panics with the message
    that names it, and so does, for a new short name, one whose
    fully-qualified name is among them; the panic leaves the state as it
    was. *)
Theorem registrar_names_unique
        (name : string) (ds : list declaration) (st1 st : State) :
  (New name;; declareAll ds) st1 = (Ok tt, st) →
  NoDup (dName <$> builtin ++ ds)
  ∧ NoDup (dFull <$> builtin ++ ds)
  ∧ records (runner st) (builtin ++ ds)
  ∧ trace st = trace st1
  ∧ (∀ d, dName d ∈ (dName <$> builtin ++ ds) →
          declareOne d st = (Panic (duplicateName (dName d)), st))
  ∧ (∀ d, dName d ∉ (dName <$> builtin ++ ds) →
          dFull d ∈ (dFull <$> builtin ++ ds) →
          declareOne d st = (Panic (duplicateFullname (dFull d)), st)).
Proof.
  intros H. rewrite bind_unfold, New_declareAll, bind_unfold in H.
  cbn [setRunner] in H.
  match type of H with
  | context [declareAll builtin ?s] =>
      set (s0 := s) in *; destruct (declareAll builtin s0) as [[[]|f] st2] eqn:Hb
  end; [|done].
  destruct (declareAll_records builtin [] s0 st2 Hb) as (Hr1 & Hn1 & Hf1 & Ht1).
  { intros n f. unfold s0, emptyRunner. cbn [runner fullname].
    split; [by rewrite lookup_empty|].
    by intros (d & Hd%elem_of_nil & _). }
  { constructor. } { constructor. }
  destruct (declareAll_records ds builtin st2 st H Hr1 Hn1 Hf1)
    as (Hr & Hn & Hf & Ht).
  split_and!; try done.
  - by rewrite Ht, Ht1.
  - intros d (d' & Heq & Hd')%list_elem_of_fmap.
    assert (fullname (runner st) !! dName d = Some (dFull d')) as Hl
      by (apply Hr; eauto).
    unfold declareOne. by rewrite declare_behaviour, Hl.
  - intros d Hfresh (d' & Heq & Hd')%list_elem_of_fmap.
    assert (fullname (runner st) !! dName d = None) as Hl.
    { destruct (fullname (runner st) !! dName d) as [f|] eqn:Hl; [|done].
      apply Hr in Hl as (d'' & Hd'' & Hn'' & _).
      destruct Hfresh. rewrite <- Hn''. by apply list_elem_of_fmap_2. }
    assert (existsb (fun kv => String.eqb kv.2 (dFull d))
                    (map_to_list (fullname (runner st))) = true) as Hx.
    { apply fullname_recorded. exists (dName d'). apply Hr. eauto. }
    unfold declareOne. by rewrite declare_behaviour, Hl, Hx.
Qed.

(** ** Consistency of the runner *)

Lemma flagsOf_setFlag (k' k : kind) (name : string) (p : nat) (r : _Runner) :
  flagsOf k' (setFlag k name p r)
  = if decide (k' = k) then <[name := p]> (flagsOf k' r) else flagsOf k' r.
Proof. by destruct k', k. Qed.

Lemma flagsOf_setFullname (k : kind) (r : _Runner) (m : gmap string string) :
  flagsOf k (setFullname r m) = flagsOf k r.
Proof. by destruct k. Qed.

Lemma no_fullname_recorded (m : gmap string string) (full : string) :
  existsb (fun kv => String.eqb kv.2 full) (map_to_list m) = false →
  ∀ name, m !! name ≠ Some full.
Proof.
  intros H name Hl.
  assert (existsb (fun kv => String.eqb kv.2 full) (map_to_list m) = true)
    by (apply fullname_recorded; eauto).
  congruence.
Qed.

(** Recording one more name keeps the runner consistent. *)
Lemma consistent_setFullname (name full : string) (st : State) :
  consistent st →
  fullname (runner st) !! name = None →
  (∀ n, fullname (runner st) !! n ≠ Some full) →
  consistent (mkState (setFullname (runner st)
                         (<[name := full]> (fullname (runner st))))
                      (flagVars st) (flagFormal st) (config st) (trace st)).
Proof.
  intros (H1 & H2 & H3) Hname Hfull. split_and!; cbn [runner flagVars].
  - intros k n p. rewrite flagsOf_setFullname. intros [Hn Hp]%H1.
    split; [|done]. cbn [setFullname fullname].
    rewrite lookup_insert_ne; [done|]. intros <-. rewrite Hname in Hn.
    by destruct Hn.
  - intros k1 k2 n p1 p2. rewrite !flagsOf_setFullname. apply H2.
  - intros n1 n2 f. cbn [setFullname fullname].
    rewrite !lookup_insert. repeat case_decide; subst.
    + done.
    + intros [= <-] Hn. by destruct (Hfull n2).
    + intros Hn [= <-]. by destruct (Hfull n1).
    + apply H3.
Qed.

(** A declaration keeps the runner consistent, whether it returns or
    panics. *)
Lemma declare_consistent (k : kind) (name full : string) (v : value)
      (description : string) (st st' : State) (r : result unit) :
  consistent st →
  declare k name full v description st = (r, st') → consistent st'.
Proof.
  intros Hc. rewrite declare_behaviour.
  destruct (fullname (runner st) !! name) eqn:Hname; [by intros [= _ <-]|].
  destruct (existsb _ _) eqn:Hfull; [by intros [= _ <-]|].
  pose proof (no_fullname_recorded _ _ Hfull) as Hfresh.
  pose proof (consistent_setFullname name full st Hc Hname Hfresh) as Hc'.
  destruct (flagFormal st !! name); intros [= _ <-]; [done|].
  destruct Hc' as (_ & _ & H3). cbn [runner] in H3.
  destruct Hc as (Hc1 & Hc2 & _).
  assert (∀ k' p, flagsOf k' (runner st) !! name ≠ Some p) as Hnew.
  { intros k' p Hl. apply Hc1 in Hl as [[f Hl] _]. congruence. }
  assert (∀ k' n p, flagsOf k' (runner st) !! n = Some p →
                    is_Some (<[name := full]> (fullname (runner st)) !! n)
                    ∧ is_Some ((flagVars st ++ [v]) !! p)) as Hold.
  { intros k' n p Hl. destruct (Hc1 k' n p Hl) as [Hn [w Hw]]. split.
    - rewrite lookup_insert_ne; [done|]. intros <-. by destruct (Hnew k' p).
    - exists w. by apply lookup_app_l_Some. }
  unfold declared. split_and!; cbn [runner flagVars].
  - intros k' n p. rewrite flagsOf_setFlag, fullname_setFlag.
    rewrite flagsOf_setFullname. cbn [setFullname fullname].
    case_decide as Hk; [rewrite lookup_insert; case_decide as Hn|];
      [|by apply Hold..].
    subst. intros [= <-]. rewrite lookup_insert_eq.
    split; [done|]. rewrite lookup_app_r by lia.
    by rewrite Nat.sub_diag.
  - intros k1 k2 n p1 p2. rewrite !flagsOf_setFlag, !flagsOf_setFullname.
    destruct (decide (n = name)) as [->|Hn].
    + destruct (decide (k1 = k)), (decide (k2 = k)); [congruence|..];
        intros Ha Hb; exfalso;
        [eapply Hnew, Hb|eapply Hnew, Ha|eapply Hnew, Ha].
    + destruct (decide (k1 = k)), (decide (k2 = k));
        rewrite ?lookup_insert_ne by done; apply Hc2.
  - intros n1 n2 f. rewrite fullname_setFlag. apply H3.
Qed.

Lemma declareAll_consistent (ds : list declaration) :
  ∀ st st' r, consistent st → declareAll ds st = (r, st') → consistent st'.
Proof.
  induction ds as [|d ds IH]; intros st st' r Hc H.
  - by injection H as _ <-.
  - unfold declareAll in H. cbn [forM_] in H. rewrite bind_unfold in H.
    destruct (declareOne d st) as [[[]|f] st1] eqn:Hd.
    + eapply IH; [|done]. by eapply declare_consistent.
    + injection H as _ <-. by eapply declare_consistent.
Qed.

(** A runner built by [New] and declarations is consistent. *)
Lemma New_consistent (name : string) (ds : list declaration)
      (st st' : State) (r : result unit) :
  (New name;; declareAll ds) st = (r, st') → consistent st'.
Proof.
  rewrite bind_unfold, New_declareAll, bind_unfold. cbn [setRunner].
  match goal with
  | |- context [declareAll builtin ?s] =>
      set (s0 := s); destruct (declareAll builtin s0) as [[[]|f] st2] eqn:Hb
  end.
  all: assert (consistent st2).
  all: try (eapply declareAll_consistent; [|exact Hb]; unfold s0, emptyRunner;
            split_and!; cbn [runner];
            [by intros []|by intros [] []|by intros ? ? ?]).
  - intros H'. by eapply declareAll_consistent.
  - by intros [= _ <-].
Qed.

(** ** [Run], step by step *)

(** Lines 162-177, by cases on the value of [-config]. *)
Lemma loadConfig_behaviour (env : Env) (st : State) :
  loadConfig env st
  = match configFlag env st with
    | None =>
        (Panic (RuntimeError "nil pointer dereference"), parsedState env st)
    | Some (VString configpath) =>
        let st1 := after (parsedState env st)
                         [Log DEBUG "config file path :%s" [VString configpath]] in
        if String.eqb configpath "" then (Ok tt, st1)
        else if String.eqb (Ext configpath) ".json" then
          match jsonFiles env configpath with
          | Some settings =>
              (Ok tt, withConfig (after st1 [LoadJSON configpath])
                                 (settings ∪ config st))
          | None =>
              (Panic (Panicf ErrConfig "load config file error :%s"
                             [VString configpath]),
               after st1 [LoadJSON configpath])
          end
        else (Ok tt, after st1 [Log WARN "can't load config file :%s"
                                    [VString configpath]])
    | Some _ => (Panic (RuntimeError "not a *string"), parsedState env st)
    end.
Proof.
  unfold loadConfig, flag_Parse, deref, configFlag. mstep.
  cbn [runner flagVars after]. fold (parsed env st). fold (parsedState env st).
  destruct (flagString (runner st) !! "config" ≫= _) as [v|]; [|done].
  mstep. destruct v as [configpath| | | |]; try done.
  unfold asString. mstep.
  destruct (String.eqb configpath ""); [done|]. cbn [negb].
  destruct (String.eqb (Ext configpath) ".json"); [|done].
  unfold gsconfig_LoadJSON. mstep.
  destruct (jsonFiles env configpath); by mstep.
Qed.

Lemma updateFlag_behaviour (kv : string * nat) (v : value) (st : State) :
  flagVars st !! kv.2 = Some v →
  updateFlag kv st
  = (Ok tt, after (withConfig st (<[keyOf (runner st) kv.1 := v]> (config st)))
                  [ConfigUpdate (keyOf (runner st) kv.1) v]).
Proof.
  intros Hv. unfold updateFlag, deref, gsconfig_Update. mstep.
  cbn [mbind option_bind]. rewrite Hv. by mstep.
Qed.

(** One loop of lines 179-199 over the entries [l]: each writes the value
    of its variable under its key. *)
Lemma updateLoop (l : list (string * nat)) :
  ∀ st,
    (∀ kv, kv ∈ l → is_Some (flagVars st !! kv.2)) →
    ∃ evs,
      forM_ l updateFlag st
      = (Ok tt, after (withConfig st (foldl (store1 (runner st) (flagVars st))
                                            (config st) l)) evs)
      ∧ Forall isConfigUpdate evs.
Proof.
  induction l as [|kv l IH]; intros st Hl.
  - exists []. split; [|done]. cbn [forM_ foldl]. unfold withConfig.
    by rewrite after_nil; destruct st.
  - destruct (Hl kv) as [v Hv]; [by left|].
    cbn [forM_]. rewrite (bind_Ok _ _ _ _ _ (updateFlag_behaviour kv v st Hv)).
    match goal with
    | |- context [forM_ l updateFlag ?s] =>
        destruct (IH s) as (evs & -> & Hevs)
    end.
    { intros kv' Hkv'. cbn [after withConfig flagVars]. apply Hl. by right. }
    eexists (_ :: evs). split.
    + cbn [foldl].
      assert (store1 (runner st) (flagVars st) (config st) kv
              = <[keyOf (runner st) kv.1 := v]> (config st)) as ->
        by (unfold store1; by rewrite Hv).
      unfold after, withConfig.
      cbn [runner flagVars config trace flagFormal].
      by rewrite <- app_assoc.
    + by constructor.
Qed.

Lemma updateFlags_behaviour (k : kind) (st : State) :
  (∀ n p, flagsOf k (runner st) !! n = Some p → is_Some (flagVars st !! p)) →
  ∃ evs,
    updateFlags k st
    = (Ok tt, after (withConfig st
                       (foldl (store1 (runner st) (flagVars st)) (config st)
                              (map_to_list (flagsOf k (runner st))))) evs)
    ∧ Forall isConfigUpdate evs.
Proof.
  intros Hv. unfold updateFlags. rewrite get_bind. apply updateLoop.
  intros [n p] Hin%elem_of_map_to_list. eauto.
Qed.

Lemma mergeFlags_forM (st : State) : mergeFlags st = forM_ kinds updateFlags st.
Proof.
  unfold mergeFlags, kinds. cbn [forM_].
  do 6 (apply bind_ext; intros ? ?). symmetry. apply bind_ret_r.
Qed.

Lemma updateAll (ks : list kind) :
  ∀ st,
    (∀ k n p, flagsOf k (runner st) !! n = Some p →
              is_Some (flagVars st !! p)) →
    ∃ evs,
      forM_ ks updateFlags st
      = (Ok tt,
         after (withConfig st
                  (foldl (store1 (runner st) (flagVars st)) (config st)
                     (concat ((fun k => map_to_list (flagsOf k (runner st)))
                                <$> ks)))) evs)
      ∧ Forall isConfigUpdate evs.
Proof.
  induction ks as [|k ks IH]; intros st Hv.
  - exists []. split; [|done]. cbn. unfold withConfig.
    by rewrite after_nil; destruct st.
  - destruct (updateFlags_behaviour k st) as (evs1 & H1 & Hevs1); [by eauto|].
    cbn [forM_]. rewrite (bind_Ok _ _ _ _ _ H1).
    match goal with
    | |- context [forM_ ks updateFlags ?s] =>
        destruct (IH s) as (evs2 & -> & Hevs2); [exact Hv|]
    end.
    exists (evs1 ++ evs2). split; [|by apply Forall_app].
    cbn [fmap list_fmap concat].
    rewrite foldl_app. unfold after, withConfig.
    cbn [runner flagVars config trace flagFormal].
    by rewrite <- app_assoc.
Qed.

(** Lines 179-199 as one fold over the flags of the runner. *)
Lemma mergeFlags_behaviour (st : State) :
  (∀ k n p, flagsOf k (runner st) !! n = Some p →
            is_Some (flagVars st !! p)) →
  ∃ evs,
    mergeFlags st
    = (Ok tt, after (withConfig st
                       (foldl (store1 (runner st) (flagVars st)) (config st)
                              (allFlags (runner st)))) evs)
    ∧ Forall isConfigUpdate evs.
Proof. intros Hv. rewrite mergeFlags_forM. by apply updateAll. Qed.

Lemma elem_of_allFlags (r : _Runner) (n : string) (p : nat) :
  (n, p) ∈ allFlags r ↔ ∃ k, flagsOf k r !! n = Some p.
Proof.
  unfold allFlags. rewrite list_elem_of_In, in_concat. split.
  - intros (l & (k & -> & _)%list_elem_of_In%list_elem_of_fmap
              & Hin%list_elem_of_In).
    exists k. by apply elem_of_map_to_list.
  - intros [k Hk]. exists (map_to_list (flagsOf k r)). split.
    + apply list_elem_of_In, list_elem_of_fmap. exists k. split; [done|].
      unfold kinds. destruct k; set_solver.
    + by apply list_elem_of_In, elem_of_map_to_list.
Qed.

(** The store after the writes [l], at the key of one of them, when the
    writes to that key all carry the same value. *)
Lemma foldl_store1_lookup (r : _Runner) (vars : list value)
      (l : list (string * nat)) :
  ∀ c n p,
    (n, p) ∈ l → is_Some (vars !! p) →
    (∀ n' p', (n', p') ∈ l → keyOf r n' = keyOf r n → vars !! p' = vars !! p) →
    foldl (store1 r vars) c l !! keyOf r n = vars !! p.
Proof.
  induction l as [|[n' p'] l IH] using rev_ind; intros c n p Hin [v Hv] Hsame.
  - by apply elem_of_nil in Hin.
  - rewrite foldl_app. cbn [foldl]. unfold store1 at 1. cbn [fst snd].
    destruct (decide (keyOf r n' = keyOf r n)) as [Hk|Hk].
    + assert (vars !! p' = vars !! p) as Hp'.
      { apply (Hsame n' p'); [|done].
        apply elem_of_app. right. by apply list_elem_of_singleton. }
      rewrite Hp', Hv, Hk. by rewrite lookup_insert_eq.
    + assert ((n, p) ∈ l) as Hin'.
      { apply elem_of_app in Hin as [?|Heq%list_elem_of_singleton]; [done|].
        by injection Heq as -> ->. }
      assert (foldl (store1 r vars) c l !! keyOf r n = vars !! p) as IH'.
      { apply IH; [done|by eexists|]. intros n'' p'' Hin'' Hk''.
        apply (Hsame n'' p''); [|done]. apply elem_of_app. by left. }
      destruct (vars !! p'); [|done]. by rewrite lookup_insert_ne.
Qed.

Lemma assign_length (formal : gmap string nat) (vars : list value)
      (a : string * value) :
  length (assign formal vars a) = length vars.
Proof.
  unfold assign. destruct (formal !! a.1) as [p|]; [|done].
  destruct (vars !! p) as [old|]; [|done].
  destruct (sameKind old a.2); [|done]. apply length_insert.
Qed.

(** Parsing assigns to the variables; it neither adds nor removes one. *)
Lemma parsed_length (env : Env) (st : State) :
  length (parsed env st) = length (flagVars st).
Proof.
  unfold parsed. generalize (flagVars st).
  induction (cmdline env) as [|a l IH]; intros vars; [done|].
  cbn [foldl]. by rewrite IH, assign_length.
Qed.

Lemma loadConfig_frame (env : Env) (st st1 : State) (r : result unit) :
  loadConfig env st = (r, st1) →
  runner st1 = runner st ∧ flagVars st1 = parsed env st.
Proof.
  rewrite loadConfig_behaviour. cbv zeta.
  repeat case_match; by intros [= _ <-].
Qed.

(** ** The calls a computation makes *)

Section Emits.
Context (P : event → Prop).

Lemma emits_ret {A} (a : A) : emits P (ret a).
Proof. intros st r st' [= _ <-]. exists []. by rewrite app_nil_r. Qed.

Lemma emits_mret {A} (a : A) : emits P (mret a : M A).
Proof. apply emits_ret. Qed.

Lemma emits_panic {A} (f : fault) : emits P (panic f : M A).
Proof. intros st r st' [= _ <-]. exists []. by rewrite app_nil_r. Qed.

Lemma emits_get : emits P get.
Proof. intros st r st' [= _ <-]. exists []. by rewrite app_nil_r. Qed.

Lemma emits_emit (e : event) : P e → emits P (emit e).
Proof. intros He st r st' [= _ <-]. exists [e]. split; [done|]. by constructor. Qed.

Lemma emits_setFlags vars formal : emits P (setFlags vars formal).
Proof. intros st r st' [= _ <-]. exists []. by rewrite app_nil_r. Qed.

Lemma emits_setConfig c : emits P (setConfig c).
Proof. intros st r st' [= _ <-]. exists []. by rewrite app_nil_r. Qed.

Lemma emits_setRunner r0 : emits P (setRunner r0).
Proof. intros st r st' [= _ <-]. exists []. by rewrite app_nil_r. Qed.

Lemma emits_bind {A B} (m : M A) (k : A → M B) :
  emits P m → (∀ a, emits P (k a)) → emits P (m ≫= k).
Proof.
  intros Hm Hk st r st'. rewrite bind_unfold.
  destruct (m st) as [[a|f] st1] eqn:H1.
  - intros H2. destruct (Hm _ _ _ H1) as (evs1 & E1 & F1).
    destruct (Hk a _ _ _ H2) as (evs2 & E2 & F2).
    exists (evs1 ++ evs2). split; [|by apply Forall_app].
    by rewrite E2, E1, app_assoc.
  - intros [= <- <-]. eauto.
Qed.

Lemma emits_forM_ {A} (l : list A) (body : A → M unit) :
  (∀ x, emits P (body x)) → emits P (forM_ l body).
Proof.
  intros Hb. induction l as [|x l IH]; cbn [forM_].
  - apply emits_ret.
  - apply emits_bind; [apply Hb|intros _; apply IH].
Qed.

(** The loader calls nothing but [gorpc.RegistryUpdate], whatever the
    pattern. *)
Lemma emits_loadRegistryWith re file path :
  (∀ items, P (RegistryUpdate items)) → emits P (loadRegistryWith re file path).
Proof.
  intros HP st r st' H. apply loadRegistryWith_outcome in H.
  destruct r.
  - destruct H as (ls & tail & _ & _ & _ & _ & _ & ->).
    eexists. split; [done|]. by constructor.
  - subst st'. exists []. by rewrite app_nil_r.
Qed.

End Emits.

(** Proves [emits P m] for a computation written with the primitives, by
    cases on what it branches on. *)
Ltac emits_solve :=
  repeat first
    [ apply emits_bind; [|intros ?]
    | apply emits_ret | apply emits_mret | apply emits_panic | apply emits_get
    | apply emits_setFlags | apply emits_setConfig | apply emits_setRunner
    | apply emits_forM_; intros ?
    | apply emits_emit; done
    | apply emits_loadRegistryWith; done
    | case_match ].

Lemma emits_loadConfig (P : event → Prop) (env : Env) :
  P FlagParse → (∀ l fmt args, P (Log l fmt args)) →
  (∀ q, Ext q = ".json" → P (LoadJSON q)) →
  emits P (loadConfig env).
Proof.
  intros HP HL HJ. unfold loadConfig, flag_Parse, deref, asString,
    gsconfig_LoadJSON.
  emits_solve; try (apply emits_emit; auto).
  apply HJ. by apply String.eqb_eq.
Qed.

Lemma emits_mergeFlags (P : event → Prop) :
  (∀ key v, P (ConfigUpdate key v)) → emits P mergeFlags.
Proof.
  intros HP. unfold mergeFlags, updateFlags, updateFlag, deref, gsconfig_Update.
  emits_solve; apply emits_emit; auto.
Qed.

Lemma emits_startup (P : event → Prop) (env : Env) (main : entry) :
  (∀ e, isLoadJSON e = false → isJoin e = false → P e) →
  emits P (startup env main).
Proof.
  intros HP. unfold startup, prepare, gsconfig_String, gsconfig_Int64,
    loadRegistry.
  emits_solve; try (apply emits_emit; by apply HP).
  apply emits_loadRegistryWith. intros. by apply HP.
Qed.

Lemma emits_body (P : event → Prop) (env : Env) (main : entry) :
  (∀ e, isLoadJSON e = false → isJoin e = false → P e) →
  (∀ q, Ext q = ".json" → P (LoadJSON q)) →
  emits P (body env main).
Proof.
  intros HP HJ. unfold body.
  apply emits_bind; [|intros _; apply emits_bind; [|intros _]].
  - apply emits_loadConfig; auto.
  - apply emits_mergeFlags. auto.
  - by apply emits_startup.
Qed.

(** ** The claims on [Run] *)

Lemma Run_unfold (env : Env) (main : entry) (st : State) :
  Run env main st
  = (Ok tt, after (body env main st).2 (lastCalls (body env main st).1)).
Proof.
  unfold Run, deferred, lastCalls.
  destruct (body env main st) as [[[]|e] st1]; cbn [fst snd]; mstep;
    by rewrite emit_after, ?after_after.
Qed.

(** C8. [Run] returns normally for every command line, environment and
    entry point.  When its body (and so the entry point) ended in a panic,
    the panic is logged and goes no further; then ["service stopped."] is
    logged and [gslogger.Join()] is called.  The body itself never calls
    [Join], so among the calls of the run there is exactly one. *)
Theorem Run_always_joins (env : Env) (main : entry) (st : State) :
  Run env main st
  = (Ok tt, after (body env main st).2 (lastCalls (body env main st).1))
  ∧ lastCalls (Ok tt) = [Log INFO "service stopped." []; Join]
  ∧ (∀ e, lastCalls (Panic e)
          = [LogFault ERROR catchFormat e; Log INFO "service stopped." []; Join])
  ∧ ∃ evs,
      trace (Run env main st).2 = trace st ++ evs
      ∧ length (List.filter isJoin evs) = 1%nat.
Proof.
  split_and!; [apply Run_unfold|done|done|].
  destruct (emits_body (fun e => isJoin e = false) env main) with
    (st := st) (r := (body env main st).1) (st' := (body env main st).2)
    as (evs & Htr & Hevs).
  { intros e _ He. exact He. } { done. } { by destruct (body env main st). }
  exists (evs ++ lastCalls (body env main st).1). split.
  - rewrite Run_unfold. cbn [snd after trace]. by rewrite Htr, app_assoc.
  - rewrite List.filter_app, length_app.
    assert (List.filter isJoin evs = []) as ->.
    { clear Htr. induction Hevs as [|e evs He _ IH]; [done|].
      cbn [List.filter]. by rewrite He. }
    by destruct (body env main st).1.
Qed.

Lemma emits_Run (P : event → Prop) (env : Env) (main : entry) :
  (∀ e, isLoadJSON e = false → P e) →
  (∀ q, Ext q = ".json" → P (LoadJSON q)) →
  emits P (Run env main).
Proof.
  intros HP HJ st r st'. rewrite Run_unfold. intros [= _ <-].
  destruct (emits_body P env main) with
    (st := st) (r := (body env main st).1) (st' := (body env main st).2)
    as (evs & Htr & Hevs); [by auto|done|by destruct (body env main st)|].
  exists (evs ++ lastCalls (body env main st).1). split.
  - cbn [after trace]. by rewrite Htr, app_assoc.
  - apply Forall_app. split; [done|].
    unfold lastCalls. destruct (body env main st).1;
      repeat constructor; by apply HP.
Qed.

(** C9. When the flag [-config] holds a path whose extension is not
    [.json], the configuration step logs the path and the warning and
    returns; it leaves the store as it was; the run goes on with the merge
    step and the rest of the startup; and [gsconfig.LoadJSON] is not called
    in the whole run.  In every run, a call of [gsconfig.LoadJSON] is on a
    path whose extension is [.json]. *)
Theorem unknown_extension_skipped
        (env : Env) (main : entry) (st : State) (configpath : string) :
  configFlag env st = Some (VString configpath) →
  configpath ≠ "" → Ext configpath ≠ ".json" →
  let st1 := after (parsedState env st)
                   [Log DEBUG "config file path :%s" [VString configpath];
                    Log WARN "can't load config file :%s"
                        [VString configpath]] in
  loadConfig env st = (Ok tt, st1)
  ∧ config st1 = config st
  ∧ body env main st = (mergeFlags;; startup env main) st1
  ∧ (∃ evs, trace (Run env main st).2 = trace st ++ evs
            ∧ Forall (fun e => isLoadJSON e = false) evs)
  ∧ (∀ env' main' st' evs' q,
        trace (Run env' main' st').2 = trace st' ++ evs' →
        LoadJSON q ∈ evs' → Ext q = ".json").
Proof.
  intros Hflag Hne Hext st1.
  assert (loadConfig env st = (Ok tt, st1)) as Hload.
  { rewrite loadConfig_behaviour, Hflag. cbv zeta.
    apply String.eqb_neq in Hne, Hext. rewrite Hne, Hext.
    unfold st1. by rewrite after_after. }
  assert (body env main st = (mergeFlags;; startup env main) st1) as Hbody
    by (unfold body; by rewrite (bind_Ok _ _ _ _ _ Hload)).
  split_and!; [done|done|done| |].
  - destruct (emits_bind (fun e => isLoadJSON e = false) mergeFlags
                (fun _ => startup env main)) with
      (st := st1) (r := (body env main st).1) (st' := (body env main st).2)
      as (evs & Htr & Hevs).
    { by apply emits_mergeFlags. }
    { intros _. apply emits_startup. auto. }
    { rewrite Hbody. by destruct ((mergeFlags;; startup env main) st1). }
    eexists. rewrite Run_unfold. cbn [snd after trace]. rewrite Htr.
    unfold st1. cbn [after parsedState trace]. rewrite <- !app_assoc.
    split; [done|].
    repeat (apply Forall_app; split); try done; try by repeat constructor.
    unfold lastCalls. destruct (body env main st).1; by repeat constructor.
  - intros env' main' st' evs' q Htr Hin.
    destruct (emits_Run (fun e => ∀ q, e = LoadJSON q → Ext q = ".json")
                env' main') with
      (st := st') (r := (Run env' main' st').1) (st' := (Run env' main' st').2)
      as (evs & Htr' & Hevs).
    { by intros [] ? ?. } { by intros ? ? ? [= <-]. }
    { by destruct (Run env' main' st'). }
    rewrite Htr in Htr'. apply app_inv_head in Htr' as ->.
    rewrite Forall_forall in Hevs. by apply (Hevs _ Hin).
Qed.

(** ** Errors of the startup *)

Lemma emits_prepare (P : event → Prop) (env : Env) :
  (∀ e, isMain e = false → P e) → emits P (prepare env).
Proof.
  intros HP. unfold prepare, gsconfig_String, gsconfig_Int64, loadRegistry.
  emits_solve; try (apply emits_emit; by apply HP).
  apply emits_loadRegistryWith. intros. by apply HP.
Qed.

(** A panic of the loader does not depend on the state it starts in. *)
Lemma loadRegistry_panic (file : Reader) (path : string) (f : fault)
      (st st' : State) :
  loadRegistry file path st = (Panic f, st) →
  loadRegistry file path st' = (Panic f, st').
Proof.
  rewrite !loadRegistry_behaviour.
  destruct (cut LF (buf file)); [|destruct (error_eqb_EOF (final file))];
    by intros [= <-].
Qed.

Lemma body_config_error (env : Env) (main : entry) (st : State)
      (configpath : string) :
  configFlag env st = Some (VString configpath) →
  configpath ≠ "" → Ext configpath = ".json" →
  jsonFiles env configpath = None →
  body env main st
  = (Panic (Panicf ErrConfig "load config file error :%s"
                   [VString configpath]),
     after (parsedState env st)
           [Log DEBUG "config file path :%s" [VString configpath];
            LoadJSON configpath]).
Proof.
  intros Hflag Hne Hext Hjson. unfold body. apply bind_Panic.
  rewrite loadConfig_behaviour, Hflag, Hjson. cbv zeta.
  apply String.eqb_neq in Hne. apply String.eqb_eq in Hext.
  by rewrite Hne, Hext, after_after.
Qed.

Lemma gsconfig_String_bind {B} (key : string) (k : string → M B)
      (st : State) :
  (gsconfig_String key "" ≫= k) st = k (storeString (config st) key) st.
Proof.
  unfold gsconfig_String, storeString. rewrite bind_assoc, get_bind.
  by repeat case_match.
Qed.

Lemma gsconfig_Int64_bind {B} (key : string) (k : Z → M B) (st : State) :
  (gsconfig_Int64 key 0 ≫= k) st = k (storeInt64 (config st) key) st.
Proof.
  unfold gsconfig_Int64, storeInt64. rewrite bind_assoc, get_bind.
  by repeat case_match.
Qed.

(** Lines 225-238: the registry file. *)
Lemma registry_step (env : Env) (registryFile : string) (st : State) :
  (if negb (String.eqb registryFile "") then
     emit (Log INFO "load gsrpc services registry file :%s"
               [VString registryFile]);;
     emit (Open registryFile);;
     match files env registryFile with
     | inl err =>
         panic (Panicf err "open registry file error :%s"
                       [VString registryFile])
     | inr file =>
         loadRegistry file registryFile;;
         emit (Log INFO "load gsrpc services registry file :%s -- success"
                   [VString registryFile])
     end
   else ret tt) st
  = ((registryCalls env registryFile).2,
     after st (registryCalls env registryFile).1).
Proof.
  unfold registryCalls.
  destruct (String.eqb registryFile ""); cbn [negb fst snd].
  { by rewrite after_nil. }
  rewrite !emit_bind, after_after. cbn [app].
  destruct (files env registryFile) as [err|file]; [done|].
  rewrite bind_unfold, loadRegistry_behaviour.
  destruct (cut LF (buf file)); [done|].
  destruct (error_eqb_EOF (final file)); [|done].
  cbn [fst snd]. by rewrite emit_after, !after_after.
Qed.

(** Lines 208-223: the set-up of the log. *)
Lemma log_step {B} (logroot loglevel : string) (k : M B) (st : State) :
  ((if negb (String.eqb logroot "") then
      emit (SetLogDir logroot);;
      maxsize ← gsconfig_Int64 "gschat.mailhub.log.maxsize" 0;
      emit (NewSink logroot maxsize)
    else ret tt);;
   (if negb (String.eqb loglevel "") then emit (NewFlags loglevel)
    else ret tt);;
   k) st
  = k (after st
         ((if String.eqb logroot "" then []
           else [ SetLogDir logroot;
                  NewSink logroot
                          (storeInt64 (config st)
                                      "gschat.mailhub.log.maxsize") ])
          ++ (if String.eqb loglevel "" then [] else [NewFlags loglevel]))).
Proof.
  destruct (String.eqb logroot ""); cbn [negb].
  - rewrite ret_bind.
    destruct (String.eqb loglevel ""); cbn [negb app].
    + by rewrite ret_bind, after_nil.
    + by rewrite emit_bind.
  - rewrite bind_assoc, emit_bind, bind_assoc, gsconfig_Int64_bind, emit_bind.
    rewrite after_after. cbn [after config app].
    destruct (String.eqb loglevel ""); cbn [negb app].
    + by rewrite ret_bind.
    + by rewrite emit_bind, after_after.
Qed.

(** [prepare] in full: what it calls and how it ends are read off the store
    and the registry file. *)
Lemma prepare_behaviour (env : Env) (st : State) :
  prepare env st
  = let calls := registryCalls env (storeString (config st)
                                                "gsrunner.registry") in
    (calls.2, after st (logCalls (config st) ++ calls.1)).
Proof.
  unfold prepare. cbv zeta.
  rewrite gsconfig_String_bind, emit_bind.
  rewrite gsconfig_String_bind, emit_bind.
  rewrite gsconfig_String_bind, emit_bind.
  rewrite !after_after. cbn [after config app].
  rewrite log_step, registry_step, !after_after.
  unfold logCalls. cbv zeta. by cbn [app].
Qed.

Lemma prepare_open_error (env : Env) (st : State)
      (registryFile : string) (err : error) :
  config st !! "gsrunner.registry" = Some (VString registryFile) →
  registryFile ≠ "" → files env registryFile = inl err →
  ∃ st', prepare env st
         = (Panic (Panicf err "open registry file error :%s"
                          [VString registryFile]), st').
Proof.
  intros Hreg Hne%String.eqb_neq Hopen. rewrite prepare_behaviour. cbv zeta.
  unfold storeString, registryCalls. rewrite Hreg, Hne, Hopen. eauto.
Qed.

Lemma prepare_load_error (env : Env) (st : State)
      (registryFile : string) (file : Reader) (f : fault) :
  config st !! "gsrunner.registry" = Some (VString registryFile) →
  registryFile ≠ "" → files env registryFile = inr file →
  loadRegistry file registryFile st = (Panic f, st) →
  ∃ st', prepare env st = (Panic f, st').
Proof.
  intros Hreg Hne%String.eqb_neq Hopen Hload.
  rewrite prepare_behaviour. cbv zeta.
  rewrite loadRegistry_behaviour in Hload.
  unfold storeString, registryCalls. rewrite Hreg, Hne, Hopen.
  destruct (cut LF (buf file)); [|destruct (error_eqb_EOF (final file))];
    injection Hload as <-; eauto.
Qed.

(** A panic of the body does not leave [Run]. *)
Lemma Run_recovers (env : Env) (main : entry) (st st1 : State) (f : fault) :
  body env main st = (Panic f, st1) →
  Run env main st
  = (Ok tt, after st1 [LogFault ERROR catchFormat f;
                       Log INFO "service stopped." []; Join]).
Proof. intros H. by rewrite Run_unfold, H. Qed.

(** A panic of [prepare], after the configuration and merge steps, is the
    panic of the body, before the entry point is called. *)
Lemma body_prepare_error (env : Env) (main : entry) (st st2 st3 : State)
      (f : fault) :
  (loadConfig env;; mergeFlags) st = (Ok tt, st2) →
  prepare env st2 = (Panic f, st3) →
  body env main st = (Panic f, st3)
  ∧ ∃ evs, trace st3 = trace st ++ evs
           ∧ Forall (fun e => isMain e = false) evs.
Proof.
  intros H12 H3. split.
  - unfold body, startup. rewrite <- bind_assoc.
    rewrite (bind_Ok _ _ _ _ _ H12). by apply bind_Panic.
  - destruct (emits_bind (fun e => isMain e = false) (loadConfig env)
                (fun _ => mergeFlags)) with (st := st) (r := Ok tt) (st' := st2)
      as (evs1 & E1 & F1); [|intros _|done|].
    { by apply emits_loadConfig. } { by apply emits_mergeFlags. }
    destruct (emits_prepare (fun e => isMain e = false) env) with
      (st := st2) (r := @Panic unit f) (st' := st3)
      as (evs2 & E2 & F2); [done|done|].
    exists (evs1 ++ evs2). split; [by rewrite E2, E1, app_assoc|].
    by apply Forall_app.
Qed.

(** C4, as the code has it.  Each error of the startup ends the body of
    [Run] in the panic that carries its message, before the entry point is
    called; the panic does not leave [Run]: the deferred function recovers
    it, logs it, logs ["service stopped."], joins the log, and [Run]
    returns normally. *)
Theorem Run_recovers_startup_errors
        (env : Env) (main : entry) (st : State) (f : fault) :
  startupError env st f →
  ∃ st1 evs,
    body env main st = (Panic f, st1)
    ∧ trace st1 = trace st ++ evs
    ∧ Forall (fun e => isMain e = false) evs
    ∧ Run env main st
      = (Ok tt, after st1 [LogFault ERROR catchFormat f;
                           Log INFO "service stopped." []; Join]).
Proof.
  intros [configpath Hflag Hne Hext Hjson
         |st2 registryFile err H12 Hreg Hne Hopen
         |st2 registryFile file f' H12 Hreg Hne Hopen Hload].
  - pose proof (body_config_error env main st configpath Hflag Hne Hext Hjson)
      as Hbody.
    eexists _, _. split; [exact Hbody|]. split.
    { cbn [after parsedState trace]. by rewrite <- app_assoc. }
    split; [by repeat constructor|]. by apply Run_recovers.
  - destruct (prepare_open_error env st2 registryFile err Hreg Hne Hopen)
      as [st3 H3].
    destruct (body_prepare_error env main st st2 st3 _ H12 H3)
      as (Hbody & evs & Htr & Hevs).
    exists st3, evs. split_and!; try done. by apply Run_recovers.
  - destruct (prepare_load_error env st2 registryFile file f' Hreg Hne Hopen Hload)
      as [st3 H3].
    destruct (body_prepare_error env main st st2 st3 _ H12 H3)
      as (Hbody & evs & Htr & Hevs).
    exists st3, evs. split_and!; try done. by apply Run_recovers.
Qed.


(** ** The declared flags, from the runner to the store *)

Lemma holdsFlag_declared_new (k : kind) (name full : string) (v : value)
      (st : State) :
  holdsFlag (declared k name full v st) k name full v.
Proof.
  exists (length (flagVars st)). unfold declared.
  cbn [runner flagFormal flagVars].
  rewrite flagsOf_setFlag, fullname_setFlag. cbn [setFullname fullname].
  rewrite decide_True by done. rewrite !lookup_insert_eq.
  split_and!; try done.
  rewrite lookup_app_r by lia. by rewrite Nat.sub_diag.
Qed.

Lemma holdsFlag_declared_old (k k' : kind) (name full n f : string)
      (v w : value) (st : State) :
  n ≠ name →
  holdsFlag st k' n f w → holdsFlag (declared k name full v st) k' n f w.
Proof.
  intros Hne (p & Hflag & Hformal & Hvar & Hfull). exists p.
  unfold declared. cbn [runner flagFormal flagVars].
  rewrite flagsOf_setFlag, fullname_setFlag, flagsOf_setFullname.
  cbn [setFullname fullname].
  split_and!.
  - case_decide; [by rewrite lookup_insert_ne|done].
  - by rewrite lookup_insert_ne.
  - by apply lookup_app_l_Some.
  - by rewrite lookup_insert_ne.
Qed.

Lemma declareAll_app (ds1 ds2 : list declaration) (st : State) :
  declareAll (ds1 ++ ds2) st = (declareAll ds1;; declareAll ds2) st.
Proof.
  revert st. induction ds1 as [|d ds1 IH]; intros st; [done|].
  unfold declareAll in *. cbn [app forM_]. rewrite bind_assoc.
  apply bind_ext. intros _ st'. apply IH.
Qed.

(** [New] and the declarations that follow it are one sequence of
    declarations on an empty runner. *)
Lemma New_then_declareAll (name : string) (ds : list declaration)
      (st : State) :
  (New name;; declareAll ds) st
  = declareAll (builtin ++ ds)
      (mkState emptyRunner (flagVars st) (flagFormal st) (config st)
               (trace st)).
Proof.
  rewrite declareAll_app, !bind_unfold, New_declareAll. by mstep.
Qed.

(** A declaration that returns was new to the runner and to package
    [flag]. *)
Lemma declareOne_Ok (d : declaration) (st st' : State) :
  declareOne d st = (Ok tt, st') →
  st' = declared (dKind d) (dName d) (dFull d) (dDefault d) st
  ∧ fullname (runner st) !! dName d = None
  ∧ flagFormal st !! dName d = None.
Proof.
  unfold declareOne. rewrite declare_behaviour.
  destruct (fullname (runner st) !! dName d); [done|].
  destruct (existsb _ _); [done|].
  destruct (flagFormal st !! dName d); [done|]. by intros [= <-].
Qed.

(** After declarations that return, the runner holds each of them with its
    default, and the flags it held before. *)
Lemma declareAll_holds (ds : list declaration) :
  ∀ st st',
    declareAll ds st = (Ok tt, st') →
    (∀ d, d ∈ ds → holdsFlag st' (dKind d) (dName d) (dFull d) (dDefault d))
    ∧ (∀ k n f w, holdsFlag st k n f w → holdsFlag st' k n f w)
    ∧ (∀ n, is_Some (flagFormal st !! n) → is_Some (flagFormal st' !! n))
    ∧ config st' = config st ∧ trace st' = trace st.
Proof.
  induction ds as [|d ds IH]; intros st st' H.
  - injection H as <-. split_and!; try done. by intros d Hd%elem_of_nil.
  - unfold declareAll in H. cbn [forM_] in H. rewrite bind_unfold in H.
    destruct (declareOne d st) as [[[]|f] st1] eqn:Hd; [|done].
    apply declareOne_Ok in Hd as (-> & Hname & Hformal).
    apply IH in H as (Hnew & Hold & Hdef & Hcfg & Htr).
    split_and!; try done.
    + intros d' [->|Hd']%elem_of_cons; [|by apply Hnew].
      apply Hold, holdsFlag_declared_new.
    + intros k n f w Hheld. apply Hold, holdsFlag_declared_old; [|done].
      intros ->. destruct Hheld as (p & _ & _ & _ & Hfull). congruence.
    + intros n Hn. apply Hdef. unfold declared. cbn [flagFormal].
      rewrite lookup_insert. by case_decide.
Qed.

Lemma flagPackageOK_declared (k : kind) (name full : string) (v : value)
      (st : State) :
  flagFormal st !! name = None →
  flagPackageOK st → flagPackageOK (declared k name full v st).
Proof.
  intros Hnew [Hlt Hinj]. unfold flagPackageOK, declared.
  cbn [flagFormal flagVars]. split.
  - intros n p. rewrite lookup_insert, length_app. cbn [length].
    case_decide; [intros [= <-]; lia|]. intros Hp%Hlt. lia.
  - intros n1 n2 p. rewrite !lookup_insert.
    repeat case_decide; subst; try done.
    + intros [= <-] Hp%Hlt. lia.
    + intros Hp%Hlt [= <-]. lia.
    + apply Hinj.
Qed.

Lemma declareAll_flagPackageOK (ds : list declaration) :
  ∀ st st',
    declareAll ds st = (Ok tt, st') → flagPackageOK st → flagPackageOK st'.
Proof.
  induction ds as [|d ds IH]; intros st st' H Hok.
  - by injection H as <-.
  - unfold declareAll in H. cbn [forM_] in H. rewrite bind_unfold in H.
    destruct (declareOne d st) as [[[]|f] st1] eqn:Hd; [|done].
    apply declareOne_Ok in Hd as (-> & _ & Hformal).
    eapply IH; [exact H|]. by apply flagPackageOK_declared.
Qed.

(** The variable of a flag after the command line. *)
Lemma parsed_lookup (formal : gmap string nat) (n : string) (p : nat)
      (cmd : list (string * value)) :
  (∀ n1 n2 q, formal !! n1 = Some q → formal !! n2 = Some q → n1 = n2) →
  formal !! n = Some p →
  ∀ vars v0,
    vars !! p = Some v0 →
    foldl (assign formal) vars cmd !! p = Some (commandLine n v0 cmd).
Proof.
  intros Hinj Hn. unfold commandLine.
  induction cmd as [|[m w] cmd IH]; intros vars v0 Hv; [done|].
  cbn [foldl fst snd]. unfold assign at 2. cbn [fst snd].
  destruct (String.eqb_spec m n) as [->|Hne]; cbn [andb].
  - rewrite Hn, Hv. destruct (sameKind v0 w); apply IH; [|done].
    apply list_lookup_insert_eq. by eapply lookup_lt_Some.
  - destruct (formal !! m) as [q|] eqn:Hm; [|by apply IH].
    destruct (vars !! q) as [old|] eqn:Hq; [|by apply IH].
    destruct (sameKind old w); apply IH; [|done].
    rewrite list_lookup_insert_ne; [done|].
    intros ->. apply Hne. by eapply Hinj.
Qed.

(** The value of a flag is its default or a value the command line gives
    it. *)
Lemma commandLine_cases (n : string) (cmd : list (string * value)) :
  ∀ v0, commandLine n v0 cmd = v0 ∨ (n, commandLine n v0 cmd) ∈ cmd.
Proof.
  unfold commandLine. induction cmd as [|[m w] cmd IH]; intros v0; [by left|].
  cbn [foldl fst snd].
  destruct (String.eqb_spec m n) as [->|Hne]; cbn [andb].
  - destruct (sameKind v0 w).
    + destruct (IH w) as [->|Hin]; right; [by left|by right].
    + destruct (IH v0) as [->|Hin]; [by left|right; by right].
  - destruct (IH v0) as [->|Hin]; [by left|right; by right].
Qed.

(** A flag the command line does not name keeps its default. *)
Lemma commandLine_absent (n : string) (v0 : value)
      (cmd : list (string * value)) :
  (∀ a, a ∈ cmd → a.1 ≠ n) → commandLine n v0 cmd = v0.
Proof.
  intros Habs. destruct (commandLine_cases n cmd v0) as [|Hin]; [done|].
  by destruct (Habs _ Hin).
Qed.

Lemma foldl_store1_other (r : _Runner) (vars : list value) (key : string)
      (l : list (string * nat)) :
  ∀ c, (∀ n p, (n, p) ∈ l → keyOf r n ≠ key) →
       foldl (store1 r vars) c l !! key = c !! key.
Proof.
  induction l as [|[n p] l IH]; intros c Hl; [done|].
  cbn [foldl]. rewrite IH by (intros n' p' Hin; apply (Hl n' p'); by right).
  unfold store1. cbn [fst snd]. destruct (vars !! p); [|done].
  apply lookup_insert_ne. apply (Hl n p). by left.
Qed.

Lemma consistent_vars (st st1 : State) :
  consistent st → runner st1 = runner st →
  length (flagVars st1) = length (flagVars st) → consistent st1.
Proof.
  intros (Hc1 & Hc2 & Hc3) Hr Hlen. unfold consistent. rewrite Hr.
  split_and!; [|done|done].
  intros k n p [Hf Hp]%Hc1. split; [done|].
  apply lookup_lt_is_Some. rewrite Hlen. by apply lookup_lt_is_Some.
Qed.

(** The merge on a consistent runner: every flag is written under its full
    name, and no other key of the store is touched. *)
Lemma mergeFlags_store (st : State) :
  consistent st →
  ∃ evs c,
    mergeFlags st = (Ok tt, after (withConfig st c) evs)
    ∧ Forall isConfigUpdate evs
    ∧ (∀ k n p full,
          flagsOf k (runner st) !! n = Some p →
          fullname (runner st) !! n = Some full →
          c !! full = flagVars st !! p)
    ∧ (∀ key,
          (∀ k n p, flagsOf k (runner st) !! n = Some p →
                    fullname (runner st) !! n ≠ Some key) →
          c !! key = config st !! key).
Proof.
  intros (Hc1 & Hc2 & Hc3).
  destruct (mergeFlags_behaviour st) as (evs & Hmerge & Hevs).
  { intros k n p H. by destruct (Hc1 k n p H). }
  eexists evs, _. split_and!; [exact Hmerge|done| |].
  - intros k n p full Hflag Hfull.
    assert (keyOf (runner st) n = full) as <-
      by (unfold keyOf; by rewrite Hfull).
    apply foldl_store1_lookup.
    + apply elem_of_allFlags. eauto.
    + by destruct (Hc1 k n p Hflag).
    + intros n' p' [k' Hk']%elem_of_allFlags Hkey.
      destruct (Hc1 k' n' p' Hk') as [[f' Hf'] _].
      unfold keyOf in Hkey. rewrite Hf', Hfull in Hkey. cbn in Hkey. subst f'.
      assert (n' = n) as -> by (eapply Hc3; eauto).
      assert (k' = k) as -> by (eapply Hc2; eauto).
      congruence.
  - intros key Hkey. apply foldl_store1_other.
    intros n p [k Hk]%elem_of_allFlags Heq.
    destruct (Hc1 k n p Hk) as [[f Hf] _].
    apply (Hkey k n p Hk). unfold keyOf in Heq. rewrite Hf in Heq.
    cbn in Heq. by subst f.
Qed.

(** The runner that [New] and declarations build. *)
Lemma runner_built (name : string) (ds : list declaration)
      (st0' st : State) :
  (New name;; declareAll ds) st0' = (Ok tt, st) →
  consistent st
  ∧ records (runner st) (builtin ++ ds)
  ∧ (∀ d, d ∈ builtin ++ ds →
          holdsFlag st (dKind d) (dName d) (dFull d) (dDefault d))
  ∧ (flagPackageOK st0' → flagPackageOK st)
  ∧ config st = config st0' ∧ trace st = trace st0'.
Proof.
  intros H. pose proof (New_consistent _ _ _ _ _ H) as Hc.
  rewrite New_then_declareAll in H.
  destruct (declareAll_records _ [] _ _ H) as (Hrec & _).
  { intros n f. cbn [runner emptyRunner fullname].
    split; [by rewrite lookup_empty|]. by intros (d & Hd%elem_of_nil & _). }
  { constructor. } { constructor. }
  destruct (declareAll_holds _ _ _ H) as (Hheld & _ & _ & Hcfg & Htr).
  split_and!; try done.
  intros Hok. eapply declareAll_flagPackageOK; [exact H|]. apply Hok.
Qed.

(** The merge after the configuration step, on a runner built by [New] and
    declarations. *)
Lemma merge_after_loadConfig
      (name : string) (ds : list declaration) (env : Env)
      (st0' st st1 : State) :
  (New name;; declareAll ds) st0' = (Ok tt, st) →
  loadConfig env st = (Ok tt, st1) →
  ∃ evs c,
    mergeFlags st1 = (Ok tt, after (withConfig st1 c) evs)
    ∧ Forall isConfigUpdate evs
    ∧ (flagPackageOK st0' →
       ∀ d, d ∈ builtin ++ ds →
            c !! dFull d
            = Some (commandLine (dName d) (dDefault d) (cmdline env)))
    ∧ (∀ key, key ∉ (dFull <$> builtin ++ ds) →
              c !! key = config st1 !! key).
Proof.
  intros Hnew Hload.
  destruct (runner_built _ _ _ _ Hnew) as (Hc & Hrec & Hheld & Hok' & _).
  apply loadConfig_frame in Hload as [Hr Hvars].
  destruct (mergeFlags_store st1) as (evs & c & Hmerge & Hevs & Hflags & Hframe).
  { eapply consistent_vars; [exact Hc|done|].
    by rewrite Hvars, parsed_length. }
  exists evs, c. split_and!; [done|done| |].
  - intros Hok d (p & Hflag & Hformal & Hvar & Hfull)%Hheld.
    destruct (Hok' Hok) as [_ Hinj].
    rewrite (Hflags (dKind d) (dName d) p (dFull d)) by (by rewrite Hr).
    rewrite Hvars. unfold parsed. by eapply parsed_lookup.
  - intros key Hkey. apply Hframe. rewrite Hr.
    intros k n p _ Hfull. apply Hkey.
    apply Hrec in Hfull as (d & Hd & _ & <-). by apply list_elem_of_fmap_2.
Qed.

(** The startup in full. *)
Lemma startup_behaviour (env : Env) (main : entry) (st : State) :
  startup env main st
  = let calls := registryCalls env (storeString (config st)
                                                "gsrunner.registry") in
    match calls.2 with
    | Ok _ =>
        (match main with Some e => Panic e | None => Ok tt end,
         after st (logCalls (config st) ++ calls.1
                   ++ [Log INFO "service started." []; Main]))
    | Panic f => (Panic f, after st (logCalls (config st) ++ calls.1))
    end.
Proof.
  unfold startup. rewrite bind_unfold, prepare_behaviour. cbv zeta.
  destruct (registryCalls env _).2 as [[]|f]; [|done].
  rewrite !emit_bind, !after_after, <- !app_assoc. cbn [app].
  by destruct main.
Qed.

(** The flag package of a fresh process. *)
Lemma flagPackageOK_st0 : flagPackageOK st0.
Proof.
  split; [intros n p|intros n1 n2 p]; cbn [st0 flagFormal];
    by rewrite lookup_empty.
Qed.

(** C7. On the runner that [New] and the declarations [ds] build, when the
    configuration step of [Run] returns, with the settings of the JSON
    file in the store if one was loaded, the merge step returns as well,
    [Run] goes on with the startup in the store that the merge leaves, and
    this store is the one the run ends with.  For every declared flag,
    one of [New] or of [ds]: the map of its kind holds the variable that
    package [flag] has for its name; after [flag.Parse()] this variable
    holds the default of the flag, replaced in turn by the values that the
    command line gives to the flag; and after the merge the store holds
    this value under the full name of the flag, whatever the file had set
    there. *)
Theorem flags_override_config
        (name : string) (ds : list declaration) (env : Env) (main : entry)
        (st0' st st1 : State) :
  flagPackageOK st0' →
  (New name;; declareAll ds) st0' = (Ok tt, st) →
  loadConfig env st = (Ok tt, st1) →
  (∀ configpath settings,
      configFlag env st = Some (VString configpath) →
      configpath ≠ "" → Ext configpath = ".json" →
      jsonFiles env configpath = Some settings →
      config st1 = settings ∪ config st)
  ∧ ∃ st2,
      mergeFlags st1 = (Ok tt, st2)
      ∧ body env main st = startup env main st2
      ∧ config (Run env main st).2 = config st2
      ∧ ∀ d, d ∈ builtin ++ ds →
             ∃ p v,
               flagFormal st !! dName d = Some p
               ∧ flagsOf (dKind d) (runner st) !! dName d = Some p
               ∧ parsed env st !! p = Some v
               ∧ v = commandLine (dName d) (dDefault d) (cmdline env)
               ∧ config st2 !! dFull d = Some v.
Proof.
  intros Hok Hnew Hload. split.
  { intros configpath settings Hflag Hne%String.eqb_neq Hext%String.eqb_eq
           Hjson.
    rewrite loadConfig_behaviour, Hflag in Hload. cbv zeta in Hload.
    rewrite Hne, Hext, Hjson in Hload. by injection Hload as <-. }
  destruct (runner_built _ _ _ _ Hnew) as (_ & _ & Hheld & Hok' & _).
  destruct (Hok' Hok) as [_ Hinj].
  destruct (merge_after_loadConfig _ _ _ _ _ _ Hnew Hload)
    as (evs & c & Hmerge & _ & Hflags & _).
  specialize (Hflags Hok).
  assert (body env main st
          = startup env main (after (withConfig st1 c) evs)) as Hbody.
  { unfold body. by rewrite (bind_Ok _ _ _ _ _ Hload),
                            (bind_Ok _ _ _ _ _ Hmerge). }
  eexists. split_and!; [exact Hmerge|exact Hbody| |].
  - rewrite Run_unfold, Hbody, startup_behaviour. cbv zeta.
    by destruct (registryCalls env _).2.
  - intros d Hd. destruct (Hheld d Hd) as (p & Hflag & Hformal & Hvar & _).
    exists p, (commandLine (dName d) (dDefault d) (cmdline env)).
    split_and!; [done|done| |done|].
    + unfold parsed. by eapply parsed_lookup.
    + cbn [after withConfig config]. by apply Hflags.
Qed.

(** * Further properties *)

(** ** Declarations that succeed *)

(** Declarations whose names are new to the runner and to package [flag],
    and pairwise distinct, all return; each flag then holds its default,
    and the flags held before are held still. *)
Lemma declareAll_fresh (ds : list declaration) :
  ∀ st,
    NoDup (dName <$> ds) → NoDup (dFull <$> ds) →
    (∀ d, d ∈ ds →
          fullname (runner st) !! dName d = None
          ∧ flagFormal st !! dName d = None
          ∧ ∀ n, fullname (runner st) !! n ≠ Some (dFull d)) →
    ∃ st',
      declareAll ds st = (Ok tt, st')
      ∧ (∀ d, d ∈ ds →
              holdsFlag st' (dKind d) (dName d) (dFull d) (dDefault d))
      ∧ (∀ k n f w, n ∉ (dName <$> ds) →
                    holdsFlag st k n f w → holdsFlag st' k n f w)
      ∧ config st' = config st ∧ trace st' = trace st.
Proof.
  induction ds as [|d ds IH]; intros st Hn Hf Hfresh.
  - exists st. split_and!; try done. by intros d Hd%elem_of_nil.
  - rewrite fmap_cons in Hn, Hf.
    apply NoDup_cons in Hn as [Hn1 Hn], Hf as [Hf1 Hf].
    destruct (Hfresh d) as (Hname & Hformal & Hfull); [by left|].
    assert (declareOne d st
            = (Ok tt, declared (dKind d) (dName d) (dFull d) (dDefault d) st))
      as Hd.
    { unfold declareOne. rewrite declare_behaviour, Hname, Hformal.
      destruct (existsb _ _) eqn:Hx; [|done].
      apply fullname_recorded in Hx as [n Hx]. by destruct (Hfull n). }
    set (st1 := declared (dKind d) (dName d) (dFull d) (dDefault d) st) in *.
    destruct (IH st1 Hn Hf) as (st' & Hall & Hnew & Hold & Hcfg & Htr).
    { intros d' Hd'. destruct (Hfresh d') as (Hname' & Hformal' & Hfull');
        [by right|].
      assert (dName d' ≠ dName d) as Hne
        by (intros Heq; apply Hn1; rewrite <- Heq; by apply list_elem_of_fmap_2).
      assert (dFull d' ≠ dFull d) as Hne'
        by (intros Heq; apply Hf1; rewrite <- Heq; by apply list_elem_of_fmap_2).
      unfold st1, declared. cbn [runner flagFormal].
      rewrite fullname_setFlag. cbn [setFullname fullname].
      rewrite !lookup_insert_ne by done. split_and!; try done.
      intros n. rewrite lookup_insert. case_decide; [congruence|apply Hfull']. }
    exists st'. split_and!.
    + unfold declareAll. cbn [forM_]. by rewrite (bind_Ok _ _ _ _ _ Hd).
    + intros d' [->|Hd']%elem_of_cons; [|by apply Hnew].
      apply Hold; [done|]. apply holdsFlag_declared_new.
    + intros k n f w Hnot Hheld. rewrite fmap_cons in Hnot.
      apply not_elem_of_cons in Hnot as [Hne Hnot].
      apply Hold; [done|]. by apply holdsFlag_declared_old.
    + done.
    + done.
Qed.

(** X1. The converse of the checks of the registrar: when the short names
    and the full names of the five flags of [New] and of the declarations
    [ds] are pairwise distinct, and package [flag] has none of the names
    yet, [New] and the declarations all return; the runner then holds every
    one of the flags with its default value, in the map of its kind, and
    neither the store nor the log was touched. *)
Theorem registrar_accepts_distinct_names
        (name : string) (ds : list declaration) (st : State) :
  NoDup (dName <$> builtin ++ ds) → NoDup (dFull <$> builtin ++ ds) →
  Forall (fun d => flagName (dName d) = true) ds →
  (∀ d, d ∈ builtin ++ ds → flagFormal st !! dName d = None) →
  ∃ st',
    (New name;; declareAll ds) st = (Ok tt, st')
    ∧ (∀ d, d ∈ builtin ++ ds →
            holdsFlag st' (dKind d) (dName d) (dFull d) (dDefault d))
    ∧ config st' = config st ∧ trace st' = trace st.
Proof.
  intros Hn Hf _ Hformal. rewrite New_then_declareAll.
  destruct (declareAll_fresh (builtin ++ ds)
              (mkState emptyRunner (flagVars st) (flagFormal st) (config st)
                       (trace st)) Hn Hf)
    as (st' & Hall & Hheld & _ & Hcfg & Htr).
  - intros d Hd. cbn [runner flagFormal emptyRunner fullname].
    split_and!; [done|by apply Hformal|]. intros n. by rewrite lookup_empty.
  - by exists st'.
Qed.

(** ** Declarations that package [flag] stops *)

(** X2. Package [flag] is shared by the whole process, so a name it has
    already makes the declaration panic there, after [checkName] has
    recorded the short name: the panic is one of package [flag], no flag is
    stored in any map of the runner, yet the name is taken from then on and
    declaring it again is a duplicate flag name. *)
Theorem name_taken_after_flag_panic
        (k : kind) (name full : string) (v : value) (description : string)
        (st : State) :
  fullname (runner st) !! name = None →
  (∀ n, fullname (runner st) !! n ≠ Some full) →
  is_Some (flagFormal st !! name) →
  ∃ msg st',
    declare k name full v description st = (Panic (PanicString msg), st')
    ∧ fullname (runner st') = <[name := full]> (fullname (runner st))
    ∧ (∀ k', flagsOf k' (runner st') = flagsOf k' (runner st))
    ∧ flagVars st' = flagVars st ∧ flagFormal st' = flagFormal st
    ∧ ∀ k' full' v' description',
        declare k' name full' v' description' st'
        = (Panic (duplicateName name), st').
Proof.
  intros Hname Hfull [p Hformal].
  assert (existsb (fun kv => String.eqb kv.2 full)
                  (map_to_list (fullname (runner st))) = false) as Hx.
  { destruct (existsb _ _) eqn:Hx; [|done].
    apply fullname_recorded in Hx as [n Hn]. by destruct (Hfull n). }
  eexists _, _. split_and!.
  - by rewrite declare_behaviour, Hname, Hx, Hformal.
  - done.
  - intros k'. cbn [runner]. by rewrite flagsOf_setFullname.
  - done.
  - done.
  - intros k' full' v' description'. rewrite declare_behaviour.
    cbn [runner setFullname fullname]. by rewrite lookup_insert_eq.
Qed.

(** X3. A process can create one runner only: once [New] has returned, a
    second [New] panics in package [flag] at its first flag, and leaves a
    runner that has recorded the name [log] and holds no flag. *)
Theorem second_New_panics (name1 name2 : string) (st st1 : State) :
  New name1 st = (Ok tt, st1) →
  ∃ msg st2,
    New name2 st1 = (Panic (PanicString msg), st2)
    ∧ fullname (runner st2) = {["log" := "gsrunner.log"]}
    ∧ (∀ k, flagsOf k (runner st2) = ∅)
    ∧ flagVars st2 = flagVars st1 ∧ flagFormal st2 = flagFormal st1.
Proof.
  intros H1. rewrite New_declareAll, bind_unfold in H1. cbn [setRunner] in H1.
  apply declareAll_holds in H1 as (Hheld & _).
  destruct (Hheld (mkDecl KString "log" "gsrunner.log" (VString "")
                          "the gsrunner log root path"))
    as (p & _ & Hformal & _); [by left|]. cbn [dName] in Hformal.
  rewrite New_declareAll, bind_unfold. cbn [setRunner].
  unfold declareAll, builtin. cbn [forM_].
  eexists _, _. split_and!.
  - apply bind_Panic. unfold declareOne. rewrite declare_behaviour.
    cbn [runner emptyRunner fullname flagFormal dName dFull dKind dDefault].
    rewrite lookup_empty, map_to_list_empty. cbn [existsb].
    by rewrite Hformal.
  - done.
  - by intros [].
  - done.
  - done.
Qed.

(** ** The settings of the configuration file *)

(** X4. The settings of the configuration file that do reach [Run]: when
    the file named by [-config] is a JSON file that loads, the
    configuration and merge steps return, and under every key that is not
    the full name of a flag the store holds what the file sets, or else
    what it held before. *)
Theorem unflagged_settings_reach_the_store
        (name : string) (ds : list declaration) (env : Env)
        (st0' st : State) (configpath : string)
        (settings : gmap string value) :
  (New name;; declareAll ds) st0' = (Ok tt, st) →
  configFlag env st = Some (VString configpath) →
  configpath ≠ "" → Ext configpath = ".json" →
  jsonFiles env configpath = Some settings →
  ∃ st2,
    (loadConfig env;; mergeFlags) st = (Ok tt, st2)
    ∧ ∀ key, key ∉ (dFull <$> builtin ++ ds) →
             config st2 !! key = (settings ∪ config st) !! key.
Proof.
  intros Hnew Hflag Hne%String.eqb_neq Hext%String.eqb_eq Hjson.
  pose proof (loadConfig_behaviour env st) as Hload.
  rewrite Hflag in Hload. cbv zeta in Hload.
  rewrite Hne, Hext, Hjson in Hload.
  destruct (merge_after_loadConfig _ _ _ _ _ _ Hnew Hload)
    as (evs & c & Hmerge & _ & _ & Hframe).
  eexists. split.
  - rewrite (bind_Ok _ _ _ _ _ Hload). exact Hmerge.
  - intros key Hkey. cbn [after withConfig config]. by rewrite Hframe.
Qed.

(** ** The calls of [Run] *)

Lemma storeString_commandLine (c : gmap string value) (key n : string)
      (cmd : list (string * value)) :
  c !! key = Some (commandLine n (VString "") cmd) →
  storeString c key = "" ∨ (n, VString (storeString c key)) ∈ cmd.
Proof.
  intros Hc. unfold storeString. rewrite Hc.
  destruct (commandLine_cases n cmd (VString "")) as [->|Hin]; [by left|].
  destruct (commandLine n (VString "") cmd); auto.
Qed.

Lemma logCalls_fromCommandLine (c : gmap string value)
      (cmd : list (string * value)) :
  storeString c "gsrunner.log" = ""
  ∨ ("log", VString (storeString c "gsrunner.log")) ∈ cmd →
  storeString c "gsrunner.log.level" = ""
  ∨ ("level", VString (storeString c "gsrunner.log.level")) ∈ cmd →
  Forall (fromCommandLine cmd) (logCalls c).
Proof.
  intros Hlog Hlevel. unfold logCalls. cbv zeta.
  repeat (apply Forall_app; split).
  - by repeat constructor.
  - destruct (String.eqb_spec (storeString c "gsrunner.log") "") as [|Hne];
      [constructor|].
    destruct Hlog as [|Hin]; [done|]. by repeat constructor.
  - destruct (String.eqb_spec (storeString c "gsrunner.log.level") "")
      as [|Hne]; [constructor|].
    destruct Hlevel as [|Hin]; [done|]. by repeat constructor.
Qed.

Lemma registryCalls_fromCommandLine (env : Env) (registryFile : string)
      (cmd : list (string * value)) :
  registryFile = "" ∨ ("registry", VString registryFile) ∈ cmd →
  Forall (fromCommandLine cmd) (registryCalls env registryFile).1.
Proof.
  intros Hreg. unfold registryCalls.
  destruct (String.eqb_spec registryFile "") as [|Hne]; [constructor|].
  destruct Hreg as [|Hin]; [done|].
  destruct (files env registryFile) as [err|file];
    [|destruct (cut LF (buf file));
      [|destruct (error_eqb_EOF (final file))]];
    cbn [fst app]; by repeat constructor.
Qed.

(** X5. The log root, the log level and the registry file of a run come
    from the command line only: on a runner built by [New] and
    declarations, [Run] calls [SetLogDir] and [NewSink] only with a value
    that the command line gives to [-log], [NewFlags] only with one it
    gives to [-level], and opens only a file it names with [-registry],
    whatever the configuration file sets under the full names of these
    flags. *)
Theorem log_and_registry_from_command_line
        (name : string) (ds : list declaration) (env : Env) (main : entry)
        (st0' st : State) :
  flagPackageOK st0' →
  (New name;; declareAll ds) st0' = (Ok tt, st) →
  ∃ evs,
    trace (Run env main st).2 = trace st ++ evs
    ∧ Forall (fromCommandLine (cmdline env)) evs.
Proof.
  intros Hok Hnew. rewrite Run_unfold. cbn [snd after trace].
  assert (∀ r, Forall (fromCommandLine (cmdline env)) (lastCalls r)) as Hlast.
  { intros [[]|f]; by repeat constructor. }
  destruct (emits_loadConfig (fromCommandLine (cmdline env)) env)
    with (st := st) (r := (loadConfig env st).1) (st' := (loadConfig env st).2)
    as (evs1 & Htr1 & Hevs1); [done|done|done|by destruct (loadConfig env st)|].
  unfold body. rewrite bind_unfold.
  destruct (loadConfig env st) as [[[]|f] st1] eqn:Hload; cbn [fst snd] in *.
  - destruct (merge_after_loadConfig _ _ _ _ _ _ Hnew Hload)
      as (evs2 & c & Hmerge & Hevs2 & Hflags & _).
    specialize (Hflags Hok).
    rewrite bind_unfold, Hmerge, startup_behaviour. cbv zeta.
    cbn [after withConfig config].
    assert (Forall (fromCommandLine (cmdline env)) (logCalls c)) as Hlog.
    { apply logCalls_fromCommandLine.
      - apply storeString_commandLine.
        apply (Hflags (mkDecl KString "log" "gsrunner.log" (VString "")
                                 "the gsrunner log root path")),
             elem_of_app; left; unfold builtin; repeat constructor.
      - apply storeString_commandLine.
        apply (Hflags (mkDecl KString "level" "gsrunner.log.level"
                                 (VString "") "the gsrunner log level")),
             elem_of_app; left; unfold builtin; repeat constructor. }
    assert (Forall (fromCommandLine (cmdline env))
                   (registryCalls env (storeString c "gsrunner.registry")).1)
      as Hreg.
    { apply registryCalls_fromCommandLine, storeString_commandLine.
      apply (Hflags (mkDecl KString "registry" "gsrunner.registry"
                               (VString "")
                               "set the rpc services registry file")),
           elem_of_app; left; unfold builtin; repeat constructor. }
    assert (Forall (fromCommandLine (cmdline env)) evs2) as Hevs2'.
    { eapply Forall_impl; [exact Hevs2|]. by intros []. }
    set (calls := logCalls c) in *. clearbody calls.
    destruct (registryCalls env _) as [calls' [[]|f]]; cbn [fst snd] in *;
      match goal with
      | |- context [lastCalls ?r] =>
          generalize (Hlast r); generalize (lastCalls r); intros last Hlast'
      end;
      unfold after, withConfig; cbn [fst snd trace];
      rewrite Htr1, <- !app_assoc;
      eexists; (split; [done|]);
      repeat (apply Forall_app; split); try done; by repeat constructor.
  - rewrite Htr1, <- app_assoc. eexists. split; [done|].
    apply Forall_app. by split.
Qed.

Lemma filter_none {A} (f : A → bool) (l : list A) :
  Forall (fun x => f x = false) l → List.filter f l = [].
Proof.
  induction 1 as [|x l Hx _ IH]; [done|]. cbn [List.filter]. by rewrite Hx.
Qed.

Lemma emits_beforeStart (P : event → Prop) (env : Env) :
  (∀ e, isMain e = false → P e) → emits P (beforeStart env).
Proof.
  intros HP. unfold beforeStart.
  apply emits_bind; [apply emits_loadConfig; intros; by apply HP|intros _].
  apply emits_bind; [apply emits_mergeFlags; intros; by apply HP|intros _].
  by apply emits_prepare.
Qed.

(** X6. The entry point is called at most once, and last: when the startup
    (configuration, merge, log and registry) panics, it is not called and
    the panic is recovered; when the startup returns, [Run] logs
    ["service started."], calls the entry point once, and a panic of the
    entry point is recovered and logged like one of the startup.  Nothing
    but the calls of the deferred function follows the entry point. *)
Theorem entry_point_called_once_and_last
        (env : Env) (main : entry) (st : State) :
  (∃ evs, trace (beforeStart env st).2 = trace st ++ evs
          ∧ Forall (fun e => isMain e = false) evs)
  ∧ Run env main st
    = (Ok tt,
       after (beforeStart env st).2
             match (beforeStart env st).1 with
             | Ok _ =>
                 [Log INFO "service started." []; Main]
                 ++ lastCalls (entryResult main)
             | Panic f => lastCalls (Panic f)
             end).
Proof.
  split.
  - destruct (beforeStart env st) as [r st3] eqn:H.
    by apply (emits_beforeStart (fun e => isMain e = false) env) in H.
  - rewrite Run_unfold. unfold body, startup, beforeStart.
    rewrite !(bind_unfold (loadConfig env)).
    destruct (loadConfig env st) as [[[]|f1] st1]; [|done].
    rewrite !(bind_unfold mergeFlags).
    destruct (mergeFlags st1) as [[[]|f2] st2]; [|done].
    rewrite !(bind_unfold (prepare env)).
    destruct (prepare env st2) as [[[]|f3] st3]; [|done].
    rewrite !emit_bind. cbn [fst snd]. rewrite !after_after.
    destruct main; cbn [entryResult fst snd panic ret];
      by rewrite after_after.
Qed.

(** The calls of the configuration step. *)
Lemma loadConfig_calls (env : Env) (st : State) :
  ∃ evs,
    trace (loadConfig env st).2 = trace st ++ evs
    ∧ (length (List.filter isLoadJSON evs) ≤ 1)%nat
    ∧ ∀ q, LoadJSON q ∈ evs →
           configFlag env st = Some (VString q) ∧ q ≠ "".
Proof.
  rewrite loadConfig_behaviour. cbv zeta.
  destruct (configFlag env st) as [[configpath| | | |]|];
    try (exists [FlagParse]; split_and!;
         [done|cbn; lia|intros q Hq; by repeat (inversion_clear Hq as [|? ? ? Hq'];
                                                 try rename Hq' into Hq)]).
  destruct (String.eqb_spec configpath "") as [->|Hne].
  { eexists. unfold after, parsedState. cbn [snd trace].
    rewrite <- app_assoc. split_and!; [done|cbn; lia|].
    intros q Hq. cbn [app] in Hq.
    apply list_elem_of_In in Hq. cbn in Hq. by destruct Hq as [|[|[]]]. }
  assert (∀ q l fmt args,
             LoadJSON q ∈ [FlagParse; Log DEBUG "config file path :%s"
                                          [VString configpath];
                           Log l fmt args] → False) as Hno.
  { intros q l fmt args Hq. apply list_elem_of_In in Hq. cbn in Hq.
    by destruct Hq as [|[|[|[]]]]. }
  assert (∀ q,
             LoadJSON q ∈ [FlagParse; Log DEBUG "config file path :%s"
                                          [VString configpath];
                           LoadJSON configpath] → q = configpath) as Hyes.
  { intros q Hq. apply list_elem_of_In in Hq. cbn in Hq.
    destruct Hq as [|[|[|[]]]]; congruence. }
  destruct (String.eqb (Ext configpath) ".json");
    [destruct (jsonFiles env configpath)|];
    eexists; unfold after, withConfig, parsedState; cbn [snd trace];
    rewrite <- !app_assoc; cbn [app];
    (split_and!; [done|cbn; lia|]); intros q Hq.
  - by apply Hyes in Hq as ->.
  - by apply Hyes in Hq as ->.
  - by apply Hno in Hq.
Qed.

(** X7. A run reads at most one configuration file, the one the command
    line names with [-config]: [gsconfig.LoadJSON] is called at most once
    in a run, and only with the non-empty value of that flag. *)
Theorem config_file_loaded_at_most_once
        (env : Env) (main : entry) (st : State) :
  ∃ evs,
    trace (Run env main st).2 = trace st ++ evs
    ∧ (length (List.filter isLoadJSON evs) ≤ 1)%nat
    ∧ ∀ q, LoadJSON q ∈ evs →
           configFlag env st = Some (VString q) ∧ q ≠ "".
Proof.
  destruct (loadConfig_calls env st) as (evs1 & Htr1 & Hlen & Hq1).
  assert (emits (fun e => isLoadJSON e = false) (mergeFlags;; startup env main))
    as Hrest.
  { apply emits_bind; [by apply emits_mergeFlags|intros _].
    apply emits_startup. by intros. }
  assert (∃ evs2, trace (body env main st).2 = trace st ++ evs1 ++ evs2
                  ∧ Forall (fun e => isLoadJSON e = false) evs2)
    as (evs2 & Htr2 & Hevs2).
  { unfold body. rewrite bind_unfold.
    destruct (loadConfig env st) as [[[]|f] st1]; cbn [snd] in Htr1.
    - destruct ((mergeFlags;; startup env main) st1) as [r2 st2] eqn:H2.
      apply Hrest in H2 as (evs2 & Htr2 & Hevs2).
      exists evs2. cbn [snd]. by rewrite Htr2, Htr1, app_assoc.
    - exists []. cbn [snd]. by rewrite app_nil_r. }
  assert (Forall (fun e => isLoadJSON e = false)
                 (lastCalls (body env main st).1)) as Hlast.
  { destruct (body env main st).1; by repeat constructor. }
  exists (evs1 ++ evs2 ++ lastCalls (body env main st).1). split_and!.
  - rewrite Run_unfold. cbn [snd after trace]. by rewrite Htr2, <- !app_assoc.
  - rewrite !List.filter_app, !length_app.
    rewrite (filter_none _ _ Hevs2), (filter_none _ _ Hlast). cbn. lia.
  - intros q [Hq|[Hq|Hq]%elem_of_app]%elem_of_app; [by apply Hq1| |].
    + rewrite Forall_forall in Hevs2. by apply Hevs2 in Hq.
    + rewrite Forall_forall in Hlast. by apply Hlast in Hq.
Qed.

(** ** The loader, on every input *)

(** X8. No registry file registers a service.  A file that holds a newline
    is refused at its first line, with the line index 0 and whatever the
    line is; a file without newline is read to its end and the empty map
    is published, or the read error is raised.  So the load returns exactly
    on the files without newline that end in [io.EOF], and the only map
    ever handed to [gorpc.RegistryUpdate] is the empty one. *)
Theorem loadRegistry_registers_nothing
        (file : Reader) (path : string) (st : State) :
  (is_Some (cut LF (buf file)) →
   loadRegistry file path st
   = (Panic (Panicf ErrRegistry invalidFormat [VString path; VInt 0]), st))
  ∧ ((loadRegistry file path st).1 = Ok tt
     ↔ cut LF (buf file) = None ∧ final file = EOF)
  ∧ ∃ evs,
      trace (loadRegistry file path st).2 = trace st ++ evs
      ∧ Forall (fun e => ∀ items, e = RegistryUpdate items → items = ∅) evs
      ∧ (length evs ≤ 1)%nat.
Proof.
  rewrite loadRegistry_behaviour.
  assert (error_eqb_EOF (final file) = true ↔ final file = EOF) as Heof
    by (by destruct (final file)).
  destruct (cut LF (buf file)) as [[line rest]|].
  - split_and!; [done| |].
    + split; [done|]. by intros [? _].
    + exists []. cbn [snd]. rewrite app_nil_r. split_and!; [done|done|cbn; lia].
  - split_and!.
    + by intros [? ?].
    + destruct (error_eqb_EOF (final file)) eqn:He; cbn [fst].
      * split; [|done]. intros _. split; [done|]. by apply Heof.
      * split; [done|]. intros [_ Hf%Heof]. congruence.
    + destruct (error_eqb_EOF (final file)).
      * exists [RegistryUpdate ∅]. split_and!; [done| |cbn; lia].
        constructor; [|done]. by intros items [= <-].
      * exists []. cbn [snd]. rewrite app_nil_r.
        split_and!; [done|done|cbn; lia].
Qed.

(** ** The pattern of a registry line *)

Lemma Matches_plus_segments i s c j s' c' :
  RegexpSpec.Matches (Plus (Capture 2 (Concat (Literal ".") wordByte))) i s c j s' c' →
  ∃ bs, bs ≠ [] ∧ Forall (fun b => isWordByte b = true) bs
        ∧ s = (segments bs ++ s')%string
        ∧ j = (i + String.length (segments bs))%nat.
Proof.
  intros H.
  remember (Plus (Capture 2 (Concat (Literal ".") wordByte))) as r eqn:Hr.
  assert (∀ i s c j s' c',
            RegexpSpec.Matches (Capture 2 (Concat (Literal ".") wordByte)) i s c j s' c' →
            ∃ b, isWordByte b = true ∧ s = String "." (String b s')
                 ∧ j = S (S i)) as Hone.
  { clear. intros i s c j s' c' H.
    inversion H as [| | | | |? ? ? ? ? ? ? ? Hcat| |]; subst; clear H.
    inversion Hcat as [| | | |? ? ? ? ? ? ? ? ? ? ? Hlit Hw| | |]; subst.
    inversion Hlit; subst. inversion Hw; subst. eauto. }
  induction H as [| | | | | |r i s c j s' c' H1 _
                  |r i s c j s' c' k s'' c'' H1 _ H2 IH];
    try discriminate; injection Hr as ->.
  - apply Hone in H1 as (b & Hb & -> & ->). exists [b].
    split_and!; [done|by constructor|done|cbn; lia].
  - apply Hone in H1 as (b & Hb & -> & ->).
    destruct (IH eq_refl) as (bs & _ & Hbs & -> & ->). exists (b :: bs).
    split_and!; [done|by constructor|done|cbn; lia].
Qed.

Lemma Matches_plus_digits i s c j s' c' :
  RegexpSpec.Matches (Plus digitByte) i s c j s' c' →
  ∃ ds, ds ≠ [] ∧ Forall (fun d => isDigitByte d = true) ds
        ∧ s = (string_of_list_ascii ds ++ s')%string
        ∧ j = (i + length ds)%nat.
Proof.
  intros H. remember (Plus digitByte) as r eqn:Hr.
  induction H as [| | | | | |r i s c j s' c' H1 _
                  |r i s c j s' c' k s'' c'' H1 _ H2 IH];
    try discriminate; injection Hr as ->.
  - inversion H1; subst. exists [a].
    split_and!; [done|by constructor|done|cbn; lia].
  - inversion H1; subst.
    destruct (IH eq_refl) as (ds & _ & Hds & -> & ->). exists (a :: ds).
    split_and!; [done|by constructor|done|cbn; lia].
Qed.

Lemma substring_skip (w s : string) (n m : nat) :
  substring (String.length w + n) m (w ++ s) = substring n m s.
Proof. induction w as [|a w IH]; [done|]. by rewrite app_cons_s. Qed.

Lemma substring_all (s : string) : substring 0 (String.length s) s = s.
Proof.
  rewrite <- (app_nil_r_s s) at 2. apply RegexpFacts.substring_prefix.
Qed.

Lemma length_string_of_list_ascii (l : list ascii) :
  String.length (string_of_list_ascii l) = length l.
Proof. induction l as [|a l IH]; [done|]. cbn. by rewrite IH. Qed.

(** X9. What the pattern of a registry line matches: a text that is a
    word byte, then one or more segments of a dot and ONE word byte, then
    ['='] and one or more digits, and nothing else.  The tokens of the
    match are then the whole text at index 0, the name at index 1 and the
    digits at index 3.  A name with a segment of two bytes or more is not
    matched, and the token the loader parses as the id, at index 1, is the
    name. *)
Theorem registryRegex_shape (s : string) (tokens : list string) :
  FindStringSubmatch registryRegex s = Some tokens →
  ∃ a bs ds,
    s = (String a (segments bs) ++ "=" ++ string_of_list_ascii ds)%string
    ∧ bs ≠ [] ∧ ds ≠ []
    ∧ Forall (fun b => isWordByte b = true) (a :: bs)
    ∧ Forall (fun d => isDigitByte d = true) ds
    ∧ tokens !! 0%nat = Some s
    ∧ tokens !! 1%nat = Some (String a (segments bs))
    ∧ tokens !! 3%nat = Some (string_of_list_ascii ds).
Proof.
  unfold FindStringSubmatch. intros H.
  destruct (searchFrom _ _ _ _) as [c|] eqn:Hs; [|done]. injection H as <-.
  apply RegexpFacts.searchFrom_sound in Hs
    as (p & t & j & t' & c' & -> & Hm & ->).
  unfold registryRegex in Hm.
  inversion Hm as [| | | |? ? ? ? ? j1 s1 c1 ? ? ? Hbegin Hm1| | |]; subst; clear Hm.
  inversion Hbegin as [? ? Hz| | | | | | |]; subst; clear Hbegin.
  assert (p = "") as -> by (destruct p; [done|discriminate]).
  rewrite app_nil_l_s in *.
  inversion Hm1 as [| | | |? ? ? ? ? j2 s2 c2 ? ? ? Hname Hm2| | |]; subst; clear Hm1.
  inversion Hname as [| | | | |? ? ? ? ? ? ? cN HN| |]; subst; clear Hname.
  pose proof (RegexpFacts.Matches_caps_length _ _ _ _ _ _ _ HN) as HlenN.
  inversion HN as [| | | |? ? ? ? ? j3 s3 c3 ? ? ? Hfirst Hmore| | |]; subst.
  inversion Hfirst as [| | |? a ? sa ? Ha| | | |]; subst.
  apply Matches_plus_segments in Hmore as (bs & Hbs & Hword & -> & ->).
  inversion Hm2 as [| | | |? ? ? ? ? j4 s4 c4 ? ? ? Heq Hm3| | |]; subst.
  inversion Heq; subst.
  inversion Hm3 as [| | | |? ? ? ? ? j5 s5 c5 ? ? ? Hid Hend| | |]; subst.
  inversion Hend; subst.
  inversion Hid as [| | | | |? ? ? ? ? ? ? cD HD| |]; subst.
  pose proof (RegexpFacts.Matches_caps_length _ _ _ _ _ _ _ HD) as HlenD.
  pose proof (RegexpFacts.Matches_caps_other _ _ _ _ _ _ _ 1 HD) as Hc1.
  apply Matches_plus_digits in HD as (ds & Hds & Hdigit & Heq' & ->).
  rewrite app_nil_r_s in Heq'. subst s4.
  rewrite length_insert in HlenD. rewrite length_replicate in HlenN.
  cbn [NumSubexp Nat.max] in HlenN.
  rewrite list_lookup_insert_eq in Hc1 by (rewrite HlenN; lia).
  specialize (Hc1 ltac:(by intros ?%elem_of_nil)).
  set (name := String a (segments bs)).
  set (digits := string_of_list_ascii ds).
  assert (String a (segments bs +:+ String "=" digits)
          = (name ++ "=" ++ digits)%string) as Htext.
  { unfold name. by rewrite !app_cons_s, app_nil_l_s. }
  rewrite Htext.
  assert (String.length name = (1 + String.length (segments bs))%nat) as Hname
    by done.
  exists a, bs, ds. fold name digits.
  split_and!; [done|done|done|by constructor|done| | |];
    rewrite RegexpFacts.lookup_map.
  - rewrite list_lookup_insert_eq by (rewrite length_insert, HlenD, HlenN; lia).
    cbn [fmap option_fmap option_map slice]. f_equal.
    rewrite Nat.sub_0_r.
    replace (S (1 + String.length (segments bs)) + length ds)%nat
      with (String.length (name ++ "=" ++ digits)%string);
      [apply substring_all|].
    rewrite !length_app_s, Hname. unfold digits.
    rewrite length_string_of_list_ascii. cbn. lia.
  - rewrite list_lookup_insert_ne by lia.
    rewrite list_lookup_insert_ne by lia. rewrite Hc1.
    cbn [fmap option_fmap option_map slice]. f_equal.
    rewrite Nat.sub_0_r, <- Hname. apply RegexpFacts.substring_prefix.
  - rewrite list_lookup_insert_ne by lia.
    rewrite list_lookup_insert_eq by (rewrite HlenD, HlenN; lia).
    cbn [fmap option_fmap option_map slice]. f_equal.
    replace (S (1 + String.length (segments bs)) + length ds
             - S (1 + String.length (segments bs)))%nat
      with (String.length digits)
      by (unfold digits; rewrite length_string_of_list_ascii; lia).
    replace (S (1 + String.length (segments bs)))
      with (String.length (name ++ "=")%string + 0)%nat
      by (rewrite length_app_s, Hname; cbn; lia).
    rewrite <- app_assoc_s, substring_skip. apply substring_all.
Qed.

(** ** The order of the merge *)

Lemma foldl_store1_perm (r : _Runner) (vars : list value)
      (c : gmap string value) (l l' : list (string * nat)) :
  l ≡ₚ l' →
  (∀ n p, (n, p) ∈ l → is_Some (vars !! p)) →
  (∀ n p n' p', (n, p) ∈ l → (n', p') ∈ l → keyOf r n' = keyOf r n →
                vars !! p' = vars !! p) →
  foldl (store1 r vars) c l = foldl (store1 r vars) c l'.
Proof.
  intros Hperm Hvalid Hkey. apply map_eq. intros key.
  destruct (decide (Exists (fun kv => keyOf r kv.1 = key) l)) as [Hex|Hno].
  - apply Exists_exists in Hex as ([n p] & Hin & <-). cbn [fst].
    trans (vars !! p); [|symmetry]; apply foldl_store1_lookup.
    + done.
    + by apply (Hvalid n p).
    + intros n' p' Hin'. by apply (Hkey n p n' p').
    + by rewrite <- Hperm.
    + by apply (Hvalid n p).
    + intros n' p' Hin'. apply (Hkey n p n' p'); [done|by rewrite Hperm].
  - rewrite !foldl_store1_other; [done| |].
    + intros n p Hin Heq. apply Hno, Exists_exists. exists (n, p).
      split; [by rewrite Hperm|done].
    + intros n p Hin Heq. apply Hno, Exists_exists. by exists (n, p).
Qed.

(** X10. Go leaves the order open in which a [range] visits a map; the
    store after the merge does not depend on it.  On a consistent runner,
    whatever the order [l] in which the flags of the seven maps are
    written to the store, every write returns and the store is the one
    that the merge leaves. *)
Theorem merge_order_irrelevant (st : State) (l : list (string * nat)) :
  consistent st → l ≡ₚ allFlags (runner st) →
  ∃ st2,
    forM_ l updateFlag st = (Ok tt, st2)
    ∧ (mergeFlags st).1 = Ok tt
    ∧ config st2 = config (mergeFlags st).2.
Proof.
  intros (Hc1 & Hc2 & Hc3) Hperm.
  assert (∀ n p, (n, p) ∈ l → ∃ k, flagsOf k (runner st) !! n = Some p)
    as Hflag.
  { intros n p Hin. apply elem_of_allFlags. by rewrite <- Hperm. }
  assert (∀ n p, (n, p) ∈ l → is_Some (flagVars st !! p)) as Hvalid.
  { intros n p [k Hk]%Hflag. by destruct (Hc1 k n p Hk). }
  destruct (updateLoop l st) as (evs & Hloop & _).
  { intros [n p] Hin. by apply (Hvalid n p). }
  destruct (mergeFlags_behaviour st) as (evs' & Hmerge & _).
  { intros k n p Hk. by destruct (Hc1 k n p Hk). }
  eexists. split_and!; [exact Hloop|by rewrite Hmerge|].
  rewrite Hmerge. cbn [snd after withConfig config].
  apply foldl_store1_perm; [done|done|].
  intros n p n' p' [k Hk]%Hflag [k' Hk']%Hflag Heq.
  destruct (Hc1 k n p Hk) as [[f Hf] _].
  destruct (Hc1 k' n' p' Hk') as [[f' Hf'] _].
  unfold keyOf in Heq. rewrite Hf, Hf' in Heq. cbn in Heq. subst f'.
  assert (n' = n) as -> by (eapply Hc3; eauto).
  assert (k' = k) as -> by (eapply Hc2; eauto).
  congruence.
Qed.

(** ** What [Run] leaves as it is *)





(** ** The keys the startup reads *)


(** ** The claims at concrete inputs *)

(** C2, as the code has it, at an input of three lines, the last of which
    has a byte that the pattern does not allow: the load panics, on the
    first line already, and nothing is published. *)
Lemma loadRegistry_no_partial_publish_witness :
  let ls := ["a.b=1" +:+ nl; "c.d=2" +:+ nl; "a-b=3" +:+ nl] in
  Forall isLine ls
  ∧ rejected registryRegex ("a-b=3" +:+ nl)
  ∧ loadRegistry (mkReader (joinLines ls +:+ "") EOF) "reg" st0
    = (Panic (Panicf ErrRegistry invalidFormat [VString "reg"; VInt 0]), st0)
  ∧ ∃ f, loadRegistry (mkReader (joinLines ls +:+ "x.y=4") EOF) "reg" st0
         = (Panic f, st0).
Proof.
  intros ls.
  assert (Forall isLine ls) as Hl by (repeat constructor).
  assert (rejected registryRegex ("a-b=3" +:+ nl)) as Hr
    by (intros key id; vm_compute; discriminate).
  split; [exact Hl|]. split; [exact Hr|]. split; [vm_compute; reflexivity|].
  apply (loadRegistry_no_partial_publish "reg" st0 EOF ls "x.y=4" Hl).
  apply Exists_cons_tl, Exists_cons_tl, Exists_cons_hd, Hr.
Defined.

(** C2, as the claim has it, fails: when the line that violates the
    grammar or the numeric limit is the last one and has no newline, the
    load returns and [gorpc.RegistryUpdate] is called, here with the empty
    map.  [a-b=1] does not match the pattern, and the id of [a.b=65536] is
    above 65535. *)
Lemma loadRegistry_misses_unterminated_violation :
  FindStringSubmatch registryRegex "a-b=1" = None
  ∧ loadRegistry (mkReader "a-b=1" EOF) "reg" st0
    = (Ok tt, after st0 [RegistryUpdate ∅])
  ∧ (MaxUint16 <? 65536) = true
  ∧ loadRegistry (mkReader "a.b=65536" EOF) "reg" st0
    = (Ok tt, after st0 [RegistryUpdate ∅]).
Proof. vm_compute. repeat split. Qed.

(** C5 after [New] and one more declaration: a second option named
    ["port"] and a second option stored under ["svc.port"] both panic. *)
Lemma registrar_names_unique_witness :
  let port := mkDecl KInt "port" "svc.port" (VInt64 8080) "the port" in
  let st := ((New "svc";; declareAll [port]) st0).2 in
  (New "svc";; declareAll [port]) st0 = (Ok tt, st)
  ∧ declareOne (mkDecl KString "port" "svc.other" (VString "") "") st
    = (Panic (duplicateName "port"), st)
  ∧ declareOne (mkDecl KUint "listen" "svc.port" (VUint64 0) "") st
    = (Panic (duplicateFullname "svc.port"), st).
Proof.
  intros port st.
  assert ((New "svc";; declareAll [port]) st0 = (Ok tt, st)) as H
    by (vm_compute; reflexivity).
  destruct (registrar_names_unique "svc" [port] st0 st H)
    as (_ & _ & _ & _ & Hname & Hfull).
  split; [exact H|]. split.
  - apply (Hname (mkDecl KString "port" "svc.other" (VString "") "")).
    apply list_elem_of_In. vm_compute. tauto.
  - apply (Hfull (mkDecl KUint "listen" "svc.port" (VUint64 0) "")).
    + intros Hin%list_elem_of_In. vm_compute in Hin.
      repeat destruct Hin as [Hin|Hin]; try discriminate Hin. exact Hin.
    + apply list_elem_of_In. vm_compute. tauto.
Defined.

(** C7 on the runner of [New]: the file [c.json] sets the log root and the
    log level, the command line sets the log root only.  Before the merge
    the store holds the settings of the file; the run ends with the log
    root of the command line and with the default of the log level in the
    store. *)
Lemma flags_override_config_witness :
  let env := mkEnv [("config", VString "c.json"); ("log", VString "/cli")]
                   (fun _ => Some {["gsrunner.log" := VString "/file";
                                    "gsrunner.log.level" := VString "debug"]})
                   (fun _ => inl (OSError "no such file")) in
  let st := ((New "svc";; declareAll []) st0).2 in
  let st1 := (loadConfig env st).2 in
  (New "svc";; declareAll []) st0 = (Ok tt, st)
  ∧ loadConfig env st = (Ok tt, st1)
  ∧ config st1 !! "gsrunner.log" = Some (VString "/file")
  ∧ config st1 !! "gsrunner.log.level" = Some (VString "debug")
  ∧ config (Run env None st).2 !! "gsrunner.log" = Some (VString "/cli")
  ∧ config (Run env None st).2 !! "gsrunner.log.level" = Some (VString "").
Proof.
  intros env st st1.
  assert ((New "svc";; declareAll []) st0 = (Ok tt, st)) as Hnew
    by (vm_compute; reflexivity).
  assert (loadConfig env st = (Ok tt, st1)) as Hload
    by (vm_compute; reflexivity).
  split; [exact Hnew|]. split; [exact Hload|].
  split; [vm_compute; reflexivity|]. split; [vm_compute; reflexivity|].
  destruct (flags_override_config "svc" [] env None st0 st st1
              flagPackageOK_st0 Hnew Hload)
    as (_ & st2 & _ & _ & -> & Hall).
  split.
  - destruct (Hall (mkDecl KString "log" "gsrunner.log" (VString "")
                           "the gsrunner log root path"))
      as (p & v & _ & _ & _ & -> & Hc);
      [apply list_elem_of_In; vm_compute; tauto|exact Hc].
  - destruct (Hall (mkDecl KString "level" "gsrunner.log.level" (VString "")
                           "the gsrunner log level"))
      as (p & v & _ & _ & _ & -> & Hc);
      [apply list_elem_of_In; vm_compute; tauto|exact Hc].
Defined.

(** C9 on the runner of [New] with [-config=conf.yaml]. *)
Lemma unknown_extension_skipped_witness :
  let env := envUnreadable [("config", VString "conf.yaml")] in
  let st := (New "svc" st0).2 in
  configFlag env st = Some (VString "conf.yaml")
  ∧ Ext "conf.yaml" = ".yaml"
  ∧ loadConfig env st
    = (Ok tt, after (parsedState env st)
                    [Log DEBUG "config file path :%s" [VString "conf.yaml"];
                     Log WARN "can't load config file :%s"
                         [VString "conf.yaml"]]).
Proof.
  intros env st.
  assert (configFlag env st = Some (VString "conf.yaml")) as Hflag
    by (vm_compute; reflexivity).
  split; [exact Hflag|]. split; [vm_compute; reflexivity|].
  apply (unknown_extension_skipped env None st "conf.yaml" Hflag).
  - discriminate.
  - vm_compute. discriminate.
Defined.

(** C4, as the code has it, on the runner of [New] with [-config=conf.json]
    and a file that cannot be loaded. *)
Lemma Run_recovers_startup_errors_witness :
  let env := envUnreadable [("config", VString "conf.json")] in
  let st := (New "svc" st0).2 in
  let f := Panicf ErrConfig "load config file error :%s"
                  [VString "conf.json"] in
  startupError env st f
  ∧ ∃ st1 evs,
      body env None st = (Panic f, st1)
      ∧ trace st1 = trace st ++ evs
      ∧ Forall (fun e => isMain e = false) evs
      ∧ Run env None st
        = (Ok tt, after st1 [LogFault ERROR catchFormat f;
                             Log INFO "service stopped." []; Join]).
Proof.
  intros env st f.
  assert (startupError env st f) as H.
  { apply (ConfigError env st "conf.json").
    - vm_compute. reflexivity.
    - discriminate.
    - vm_compute. reflexivity.
    - reflexivity. }
  split; [exact H|].
  exact (Run_recovers_startup_errors env None st f H).
Defined.

(** C4, as the claim has it, fails: with a JSON configuration file that
    cannot be loaded, with a registry file that cannot be opened, and with
    a registry file of one malformed line, the body of [Run] panics with
    the message of the error, and [Run] returns normally all the same. *)
Lemma Run_absorbs_startup_errors :
  let st := (New "svc" st0).2 in
  let env1 := envUnreadable [("config", VString "conf.json")] in
  let env2 := envUnreadable [("registry", VString "reg")] in
  let env3 := mkEnv [("registry", VString "reg")] (fun _ => None)
                    (fun _ => inr (mkReader ("a-b=1" +:+ nl) EOF)) in
  ((body env1 None st).1
   = Panic (Panicf ErrConfig "load config file error :%s"
                   [VString "conf.json"])
   ∧ (Run env1 None st).1 = Ok tt)
  ∧ ((body env2 None st).1
     = Panic (Panicf (OSError "no such file") "open registry file error :%s"
                     [VString "reg"])
     ∧ (Run env2 None st).1 = Ok tt)
  ∧ ((body env3 None st).1
     = Panic (Panicf ErrRegistry invalidFormat [VString "reg"; VInt 0])
     ∧ (Run env3 None st).1 = Ok tt).
Proof. vm_compute. repeat split. Qed.

(** ** The further properties at concrete inputs *)

(** X1 for [New] and one declaration in a fresh process. *)
Lemma registrar_accepts_distinct_names_witness :
  let port := mkDecl KInt "port" "svc.port" (VInt64 8080) "the port" in
  NoDup (dName <$> builtin ++ [port])
  ∧ NoDup (dFull <$> builtin ++ [port])
  ∧ ∃ st', (New "svc";; declareAll [port]) st0 = (Ok tt, st')
           ∧ holdsFlag st' KInt "port" "svc.port" (VInt64 8080)
           ∧ holdsFlag st' KString "registry" "gsrunner.registry"
                       (VString "").
Proof.
  intros port.
  assert (NoDup (dName <$> builtin ++ [port])) as Hn
    by (apply (bool_decide_unpack _); vm_compute; reflexivity).
  assert (NoDup (dFull <$> builtin ++ [port])) as Hf
    by (apply (bool_decide_unpack _); vm_compute; reflexivity).
  split; [exact Hn|]. split; [exact Hf|].
  destruct (registrar_accepts_distinct_names "svc" [port] st0 Hn Hf)
    as (st' & Hnew & Hheld & _).
  - constructor; [reflexivity|constructor].
  - intros d _. apply lookup_empty.
  - exists st'. split; [exact Hnew|]. split.
    + apply (Hheld port). apply list_elem_of_In. vm_compute. tauto.
    + apply (Hheld (mkDecl KString "registry" "gsrunner.registry" (VString "")
                           "set the rpc services registry file")).
      apply list_elem_of_In. vm_compute. tauto.
Defined.

(** X2 in a process where another package has defined the flag [-v]. *)
Lemma name_taken_after_flag_panic_witness :
  let st := mkState emptyRunner [VString ""] {["v" := 0%nat]} ∅ [] in
  ∃ msg st',
    declare KInt "v" "svc.verbose" (VInt64 0) "verbosity" st
    = (Panic (PanicString msg), st')
    ∧ fullname (runner st') !! "v" = Some "svc.verbose"
    ∧ flagInt (runner st') !! "v" = None
    ∧ declare KString "v" "svc.version" (VString "") "version" st'
      = (Panic (duplicateName "v"), st').
Proof.
  intros st.
  destruct (name_taken_after_flag_panic KInt "v" "svc.verbose" (VInt64 0)
              "verbosity" st)
    as (msg & st' & Hpanic & Hfull & Hflags & _ & _ & Hagain).
  - apply lookup_empty.
  - intros n. change ((∅ : gmap string string) !! n ≠ Some "svc.verbose").
    rewrite lookup_empty. discriminate.
  - exists 0%nat. vm_compute. reflexivity.
  - exists msg, st'. split; [exact Hpanic|]. split; [|split].
    + rewrite Hfull. apply lookup_insert_eq.
    + change (flagsOf KInt (runner st') !! "v" = None). rewrite Hflags.
      apply lookup_empty.
    + apply Hagain.
Defined.

(** X3 in a fresh process. *)
Lemma second_New_panics_witness :
  ∃ msg st2,
    New "other" (New "svc" st0).2 = (Panic (PanicString msg), st2)
    ∧ fullname (runner st2) = {["log" := "gsrunner.log"]}.
Proof.
  destruct (second_New_panics "svc" "other" st0 (New "svc" st0).2)
    as (msg & st2 & Hpanic & Hfull & _).
  - vm_compute. reflexivity.
  - exists msg, st2. split; [exact Hpanic|exact Hfull].
Defined.

(** X4 on the runner of [New]: the setting [svc.workers] of the file is in
    the store after the merge. *)
Lemma unflagged_settings_reach_the_store_witness :
  let env := mkEnv [("config", VString "c.json")]
                   (fun _ => Some {["svc.workers" := VInt64 4]})
                   (fun _ => inl (OSError "no such file")) in
  let st := ((New "svc";; declareAll []) st0).2 in
  ∃ st2, (loadConfig env;; mergeFlags) st = (Ok tt, st2)
         ∧ config st2 !! "svc.workers" = Some (VInt64 4).
Proof.
  intros env st.
  destruct (unflagged_settings_reach_the_store "svc" [] env st0 st "c.json"
              {["svc.workers" := VInt64 4]})
    as (st2 & Hrun & Hkeys).
  - vm_compute. reflexivity.
  - vm_compute. reflexivity.
  - discriminate.
  - vm_compute. reflexivity.
  - reflexivity.
  - exists st2. split; [exact Hrun|].
    rewrite (Hkeys "svc.workers"); [vm_compute; reflexivity|].
    intros Hin%list_elem_of_In. vm_compute in Hin.
    repeat destruct Hin as [Hin|Hin]; try discriminate Hin. exact Hin.
Defined.

(** X5 on the runner of [New], with a configuration file that names a
    registry file and a command line that does not: no file is opened. *)
Lemma log_and_registry_from_command_line_witness :
  let env := mkEnv [("config", VString "c.json")]
                   (fun _ => Some {["gsrunner.registry" := VString "reg"]})
                   (fun _ => inr (mkReader "" EOF)) in
  let st := ((New "svc";; declareAll []) st0).2 in
  ∃ evs, trace (Run env None st).2 = trace st ++ evs
         ∧ Forall (fromCommandLine (cmdline env)) evs.
Proof.
  intros env st.
  apply (log_and_registry_from_command_line "svc" [] env None st0 st
           flagPackageOK_st0).
  vm_compute. reflexivity.
Defined.

(** X9 at the text ["a.b=42"]. *)
Lemma registryRegex_shape_witness :
  FindStringSubmatch registryRegex "a.b=42" = Some ["a.b=42"; "a.b"; ".b"; "42"]
  ∧ ∃ a bs ds,
      "a.b=42" = (String a (segments bs) ++ "=" ++ string_of_list_ascii ds)%string
      ∧ bs ≠ [] ∧ ds ≠ [].
Proof.
  assert (FindStringSubmatch registryRegex "a.b=42"
          = Some ["a.b=42"; "a.b"; ".b"; "42"]) as H
    by (vm_compute; reflexivity).
  split; [exact H|].
  destruct (registryRegex_shape _ _ H) as (a & bs & ds & Hs & Hbs & Hds & _).
  exists a, bs, ds. split; [exact Hs|]. split; [exact Hbs|exact Hds].
Defined.

(** X10 on the runner of [New], with its flags in the reverse order. *)
Lemma merge_order_irrelevant_witness :
  let st := ((New "svc";; declareAll []) st0).2 in
  ∃ st2,
    forM_ (reverse (allFlags (runner st))) updateFlag st = (Ok tt, st2)
    ∧ (mergeFlags st).1 = Ok tt
    ∧ config st2 = config (mergeFlags st).2.
Proof.
  intros st.
  apply (merge_order_irrelevant st (reverse (allFlags (runner st)))).
  - apply (New_consistent "svc" [] st0 st (Ok tt)). vm_compute. reflexivity.
  - apply reverse_Permutation.
Defined.


